(** * AutoMonitor: configuration store, argument resolver and process supervisor

    A shallow embedding of [AutoMonitor.py].  Python values read from
    [config.json] are an inductive type of JSON values, exceptions are
    an explicit result type, the three configuration files are a finite
    map from paths to contents, and the operating system's process table
    and clock are an explicit world threaded through the supervisor. *)

From Stdlib Require Import ZArith Ascii String List Bool Lia.
From Stdlib Require Import DecimalString.
From stdpp Require Import base option list gmap strings fin_maps.

Import ListNotations.
Local Open Scope string_scope.
Local Open Scope Z_scope.
Set Warnings "-register-all".

(** ** Python values *)

Module Py.

(** A value produced by [json.load].  A [dict] keeps its keys in insertion
    order, so it is an association list.  A [str] is the [string] of the
    bytes of its UTF-8 encoding, a lone surrogate taking the three bytes
    its code point would (as the [surrogatepass] handler writes it), so
    that every [str] has one representation and the literals of this
    file are the texts of the source; a [float] is kept as the numeral
    [json.dumps] prints for it. *)
Inductive json : Type :=
| JNull
| JBool (b : bool)
| JInt (n : Z)
| JFloat (lit : string)
| JStr (s : string)
| JList (l : list json)
| JDict (d : list (string * json)).

Abbreviation dict := (list (string * json)).

(** Exceptions that the modelled code raises or catches. *)
Inductive exn : Type :=
| TypeError
| KeyError (k : string)
| AttributeError
| FileNotFoundError (path : string)
| JSONDecodeError
| UnicodeDecodeError
| UnicodeEncodeError
| ValueError (msg : string)
| RuntimeError (msg : string).

Inductive result (A : Type) : Type :=
| Return (a : A)
| Raise (e : exn).
Arguments Return {A} a.
Arguments Raise {A} e.

Definition bind {A B} (r : result A) (k : A -> result B) : result B :=
  match r with
  | Return a => k a
  | Raise e => Raise e
  end.

Notation "x <- r ;; k" := (bind r (fun x => k))
  (at level 100, r at next level, right associativity).

(** *** Characters

    A byte [10xxxxxx] continues a character; any other byte starts one. *)
Definition is_continuation (c : ascii) : bool :=
  let n := nat_of_ascii c in Nat.leb 128 n && Nat.ltb n 192.

(** [len(s)]: the number of characters. *)
Fixpoint py_len (s : string) : nat :=
  match s with
  | EmptyString => 0%nat
  | String c rest => ((if is_continuation c then 0 else 1) + py_len rest)%nat
  end.

Definition starts_with_continuation (s : string) : bool :=
  match s with
  | String c _ => is_continuation c
  | EmptyString => false
  end.

(** [list(s)]: the characters of [s], each a [str] of length one. *)
Fixpoint chars (s : string) : list string :=
  match s with
  | EmptyString => []
  | String c rest =>
      if starts_with_continuation rest then
        match chars rest with
        | first :: others => String c first :: others
        | [] => [String c EmptyString]
        end
      else String c EmptyString :: chars rest
  end.

(** A surrogate, [U+D800] to [U+DFFF], is the byte [0xED] followed by a
    byte from [0xA0] up.  A [str] can be written to a file opened with
    [encoding="utf-8"] when it holds none. *)
Fixpoint encodable_str (s : string) : bool :=
  match s with
  | EmptyString => true
  | String c rest =>
      negb (Nat.eqb (nat_of_ascii c) 237
            && match rest with
               | String d _ => Nat.leb 160 (nat_of_ascii d)
               | EmptyString => false
               end)
      && encodable_str rest
  end.

(** [needle in hay] for two [str]: substring test. *)
Fixpoint contains (needle hay : string) : bool :=
  String.prefix needle hay ||
  match hay with
  | EmptyString => false
  | String _ rest => contains needle rest
  end.

(** [d[key]] lookup and [key in d] on a [dict]. *)
Fixpoint lookup (key : string) (d : dict) : option json :=
  match d with
  | [] => None
  | (k, v) :: rest => if String.eqb k key then Some v else lookup key rest
  end.

Definition has_key (key : string) (d : dict) : bool :=
  match lookup key d with Some _ => true | None => false end.

Definition is_str (s : string) (v : json) : bool :=
  match v with JStr t => String.eqb t s | _ => false end.

(** [key in container] for a [str] key: key membership on a [dict],
    element membership on a [list], substring on a [str]; every other
    value is not iterable and raises [TypeError]. *)
Definition py_in (key : string) (container : json) : result bool :=
  match container with
  | JDict d => Return (has_key key d)
  | JList l => Return (existsb (is_str key) l)
  | JStr s => Return (contains key s)
  | _ => Raise TypeError
  end.

(** [container[key]] for a [str] key. *)
Definition subscript (container : json) (key : string) : result json :=
  match container with
  | JDict d =>
      match lookup key d with
      | Some v => Return v
      | None => Raise (KeyError key)
      end
  | _ => Raise TypeError
  end.

(** [isinstance(v, int)]: [bool] is a subclass of [int]. *)
Definition isinstance_int (v : json) : bool :=
  match v with JInt _ | JBool _ => true | _ => false end.

Definition isinstance_str (v : json) : bool :=
  match v with JStr _ => true | _ => false end.

Definition isinstance_list (v : json) : bool :=
  match v with JList _ => true | _ => false end.

Definition isinstance_dict (v : json) : bool :=
  match v with JDict _ => true | _ => false end.

(** No [str] inside [j], key or value, holds a surrogate: the text
    [json.dump(j, f, ensure_ascii=False)] produces can be encoded. *)
Fixpoint encodable (j : json) : bool :=
  match j with
  | JStr s => encodable_str s
  | JList l => forallb encodable l
  | JDict d =>
      forallb (fun kv => let '(k, v) := kv in encodable_str k && encodable v) d
  | _ => true
  end.

(** [str(i)] for a non-negative index. *)
Definition str_nat (i : nat) : string :=
  NilZero.string_of_uint (Nat.to_uint i).

(** [str(n)] for an [int]. *)
Definition str_int (n : Z) : string :=
  NilZero.string_of_int (Z.to_int n).

(** [dict.get(key, default)] and [d[key] = v]: an existing key keeps its
    place, a new key goes last. *)
Definition dict_get (key : string) (dflt : json) (d : dict) : json :=
  match lookup key d with Some v => v | None => dflt end.

Fixpoint dict_set (key : string) (v : json) (d : dict) : dict :=
  match d with
  | [] => [(key, v)]
  | (k, old) :: rest =>
      if String.eqb k key then (k, v) :: rest
      else (k, old) :: dict_set key v rest
  end.

(** *** [json.dumps(value, ensure_ascii=False)]

    The default separators are [", "] and [": "] and there is no
    indentation.  Inside a string the quote, the backslash and the
    control characters below [0x20] are escaped; everything else is
    copied. *)

Definition quote : ascii := "034"%char.
Definition backslash : ascii := "092"%char.
Definition newline : ascii := "010"%char.

Definition hex_digit (n : nat) : ascii :=
  match n with
  | 0%nat => "0" | 1%nat => "1" | 2%nat => "2" | 3%nat => "3"
  | 4%nat => "4" | 5%nat => "5" | 6%nat => "6" | 7%nat => "7"
  | 8%nat => "8" | 9%nat => "9" | 10%nat => "a" | 11%nat => "b"
  | 12%nat => "c" | 13%nat => "d" | 14%nat => "e" | _ => "f"
  end%char.

Definition escape_char (c : ascii) : string :=
  let n := nat_of_ascii c in
  if Ascii.eqb c quote then String backslash (String quote EmptyString)
  else if Ascii.eqb c backslash then String backslash (String backslash EmptyString)
  else if Nat.eqb n 8 then String backslash "b"
  else if Nat.eqb n 12 then String backslash "f"
  else if Nat.eqb n 10 then String backslash "n"
  else if Nat.eqb n 13 then String backslash "r"
  else if Nat.eqb n 9 then String backslash "t"
  else if Nat.ltb n 32 then
    String backslash
      ("u00" ++ String (hex_digit (n / 16)) (String (hex_digit (n mod 16)) EmptyString))
  else String c EmptyString.

Fixpoint escape (s : string) : string :=
  match s with
  | EmptyString => EmptyString
  | String c rest => escape_char c ++ escape rest
  end.

Definition encode_basestring (s : string) : string :=
  String quote (escape s ++ String quote EmptyString).

Fixpoint json_dumps (j : json) : string :=
  match j with
  | JNull => "null"
  | JBool true => "true"
  | JBool false => "false"
  | JInt n => str_int n
  | JFloat lit => lit
  | JStr s => encode_basestring s
  | JList l => "[" ++ String.concat ", " (List.map json_dumps l) ++ "]"
  | JDict d =>
      "{" ++ String.concat ", "
               (List.map (fun kv => let '(k, v) := kv in
                                    encode_basestring k ++ ": " ++ json_dumps v) d)
          ++ "}"
  end.

(** The text holds no line break. *)
Fixpoint one_line (s : string) : bool :=
  match s with
  | EmptyString => true
  | String c rest => negb (Ascii.eqb c newline) && one_line rest
  end.

(** No float numeral inside [j] holds a line break. *)
Fixpoint floats_one_line (j : json) : bool :=
  match j with
  | JFloat lit => one_line lit
  | JList l => forallb floats_one_line l
  | JDict d => forallb (fun kv => let '(_, v) := kv in floats_one_line v) d
  | _ => true
  end.

(** *** Paths *)

Definition is_slash (c : ascii) : bool := Ascii.eqb c "/"%char.

Fixpoint has_slash (p : string) : bool :=
  match p with
  | EmptyString => false
  | String c rest => is_slash c || has_slash rest
  end.

(** [os.path.basename(p)]: what follows the last slash. *)
Fixpoint basename (p : string) : string :=
  match p with
  | EmptyString => EmptyString
  | String c rest =>
      if has_slash rest then basename rest
      else if is_slash c then rest else p
  end.

(** Index of the last dot of [s]. *)
Fixpoint rfind_dot (s : string) : option nat :=
  match s with
  | EmptyString => None
  | String c rest =>
      match rfind_dot rest with
      | Some i => Some (S i)
      | None => if Ascii.eqb c "."%char then Some 0%nat else None
      end
  end.

Fixpoint all_dots (s : string) : bool :=
  match s with
  | EmptyString => true
  | String c rest => Ascii.eqb c "."%char && all_dots rest
  end.

(** [os.path.splitext(filename)[0]] for a name without slashes: the
    extension starts at the last dot, unless only dots come before it. *)
Definition splitext_root (filename : string) : string :=
  match rfind_dot filename with
  | Some i =>
      let root := String.substring 0 i filename in
      if all_dots root then filename else root
  | None => filename
  end.

Definition os_path_isabs (p : string) : bool := String.prefix "/" p.

Definition ends_with_slash (a : string) : bool :=
  match String.get (String.length a - 1) a with
  | Some c => is_slash c
  | None => false
  end.

(** [os.path.join(a, b)] on POSIX paths. *)
Definition os_path_join (a b : string) : string :=
  if os_path_isabs b then b
  else if String.eqb a EmptyString || ends_with_slash a then a ++ b
  else a ++ "/" ++ b.

End Py.

(** ** Configuration validation *)

Module Config.
Import Py.

Definition required_keys : list string :=
  ["GUILD_ID"; "TOKEN"; "AUTHORIZED_LIST"; "PROJECTS"].

Definition msg_missing (key : string) : string :=
  "必須キー '" ++ key ++ "' がありません".
Definition msg_guild : string := "GUILD_ID は整数である必要があります".
Definition msg_token : string := "TOKEN が無効です".
Definition msg_authorized : string :=
  "AUTHORIZED_LIST はリストである必要があります".
Definition msg_projects : string := "PROJECTS はリストである必要があります".
Definition msg_local_path (i : nat) : string :=
  "PROJECTS[" ++ str_nat i ++ "] に 'local_path' がありません".

(** [for key in required_keys: if key not in config_data: return ...] *)
Fixpoint check_required (keys : list string) (config_data : json)
  : result (option string) :=
  match keys with
  | [] => Return None
  | key :: rest =>
      present <- py_in key config_data ;;
      if present then check_required rest config_data
      else Return (Some (msg_missing key))
  end.

(** [for i, project in enumerate(config_data["PROJECTS"]): ...] *)
Fixpoint check_projects (i : nat) (projects : list json)
  : result (option string) :=
  match projects with
  | [] => Return None
  | project :: rest =>
      present <- py_in "local_path" project ;;
      if present then check_projects (S i) rest
      else Return (Some (msg_local_path i))
  end.

(** [isinstance(token, str) and len(token) >= 50] *)
Definition token_ok (v : json) : bool :=
  match v with
  | JStr s => negb (Nat.ltb (py_len s) 50)
  | _ => false
  end.

Definition validate_config (config_data : json) : result (bool * string) :=
  missing <- check_required required_keys config_data ;;
  match missing with
  | Some msg => Return (false, msg)
  | None =>
      guild <- subscript config_data "GUILD_ID" ;;
      if negb (isinstance_int guild) then Return (false, msg_guild) else
      token <- subscript config_data "TOKEN" ;;
      if negb (token_ok token) then Return (false, msg_token) else
      authorized <- subscript config_data "AUTHORIZED_LIST" ;;
      if negb (isinstance_list authorized) then Return (false, msg_authorized) else
      projects <- subscript config_data "PROJECTS" ;;
      match projects with
      | JList ps =>
          bad <- check_projects 0 ps ;;
          match bad with
          | Some msg => Return (false, msg)
          | None => Return (true, "OK")
          end
      | _ => Return (false, msg_projects)
      end
  end.

(** *** The three configuration files

    A file is kept up to JSON formatting and line endings: the value
    [json.load] reads from it; or text that [json.load] rejects; or
    bytes that are not UTF-8, which cannot even be read as text; or the
    beginning of the text of a document, as [json.dump] leaves it when
    it comes to a string it cannot encode (the text stops inside the
    document, so [json.load] rejects it).  Next to the files the disk
    records every operation performed on it, in order. *)

Inductive content : Type :=
| Json (j : json)
| Garbage (text : string)
| Undecodable
| Truncated (config : json).

Inductive fs_op : Type :=
| OpWrite (path : string) (c : content)
| OpReplace (src dst : string)
| OpRemove (path : string).

Record disk : Type := Disk {
  files : gmap string content;
  ops : list fs_op
}.

(** Code that reads and writes files and may raise. *)
Definition io (A : Type) : Type := disk -> disk * result A.

Definition ret {A} (a : A) : io A := fun dk => (dk, Return a).
Definition raise {A} (e : exn) : io A := fun dk => (dk, Raise e).
Definition lift {A} (r : result A) : io A := fun dk => (dk, r).

Definition io_bind {A B} (m : io A) (k : A -> io B) : io B :=
  fun dk =>
    match m dk with
    | (dk', Return a) => k a dk'
    | (dk', Raise e) => (dk', Raise e)
    end.

(** [try: m  except Exception as e: h e] *)
Definition try_except {A} (m : io A) (h : exn -> io A) : io A :=
  fun dk =>
    match m dk with
    | (dk', Return a) => (dk', Return a)
    | (dk', Raise e) => h e dk'
    end.

Notation "x <~ m ;; k" := (io_bind m (fun x => k))
  (at level 100, m at next level, right associativity).
Notation "m ;;; k" := (io_bind m (fun _ => k))
  (at level 100, right associativity).

Definition exists_ (path : string) : io bool :=
  fun dk => (dk, Return (bool_decide (is_Some (files dk !! path)))).

(** [with open(path, "r", encoding="utf-8") as f: f.read()] *)
Definition read_file (path : string) : io content :=
  fun dk =>
    match files dk !! path with
    | Some Undecodable => (dk, Raise UnicodeDecodeError)
    | Some c => (dk, Return c)
    | None => (dk, Raise (FileNotFoundError path))
    end.

(** [with open(path, "w", encoding="utf-8") as f: f.write(c)] for text
    that was read from a file, and the saving of an upload, byte for
    byte. *)
Definition write_file (path : string) (c : content) : io unit :=
  fun dk =>
    (Disk (<[path := c]> (files dk)) (ops dk ++ [OpWrite path c]), Return tt).

(** [os.replace(src, dst)] *)
Definition os_replace (src dst : string) : io unit :=
  fun dk =>
    match files dk !! src with
    | Some c =>
        (Disk (<[dst := c]> (delete src (files dk)))
              (ops dk ++ [OpReplace src dst]), Return tt)
    | None => (dk, Raise (FileNotFoundError src))
    end.

(** [os.remove(path)] *)
Definition os_remove (path : string) : io unit :=
  fun dk =>
    match files dk !! path with
    | Some _ =>
        (Disk (delete path (files dk)) (ops dk ++ [OpRemove path]), Return tt)
    | None => (dk, Raise (FileNotFoundError path))
    end.

(** [json.loads] of the text of a file. *)
Definition json_load (c : content) : result json :=
  match c with
  | Json j => Return j
  | Garbage _ | Truncated _ => Raise JSONDecodeError
  | Undecodable => Raise UnicodeDecodeError
  end.

(** [with open(path, "r", encoding="utf-8") as f: json.load(f)]: the
    file is read as text, then parsed. *)
Definition load_json (path : string) : io json :=
  c <~ read_file path ;; lift (json_load c).

(** [with open(path, "w", encoding="utf-8") as f:
    json.dump(config, f, ensure_ascii=False, indent=2)].  Opening the
    file empties it; the text is written piece by piece, and a string
    with a surrogate raises [UnicodeEncodeError] when its piece is
    written, the pieces before it staying in the file. *)
Definition dump_json (path : string) (config : json) : io unit :=
  if encodable config then write_file path (Json config)
  else write_file path (Truncated config) ;;; raise UnicodeEncodeError.

Definition token51 : string :=
  "xxxxxxxxxxxxxxxxxxxxxxxxxxxxxxxxxxxxxxxxxxxxxxxxxxx".

(** The example document of the specification. *)
Definition example_doc : dict :=
  [("GUILD_ID", JInt 123); ("TOKEN", JStr token51);
   ("AUTHORIZED_LIST", JList [JInt 1]);
   ("PROJECTS", JList [JDict [("local_path", JStr "worker.py")]])].

(** The bytes [ED A0 BD] of the lone surrogate [U+D83D], and the example
    document with a note that holds it. *)
Definition lone_surrogate : string :=
  String "237" (String "160" (String "189" EmptyString)).

Definition doc_surrogate : dict :=
  ("note", JStr lone_surrogate) :: example_doc.

Section Store.

(** The directory that holds [AutoMonitor.py]. *)
Variable SCRIPT_DIR : string.

Definition CONFIG_PATH : string := os_path_join SCRIPT_DIR "config.json".
Definition CONFIG_BACKUP_PATH : string := CONFIG_PATH ++ ".bak".
Definition CONFIG_SAFE_BACKUP_PATH : string := CONFIG_PATH ++ ".safe".
Definition temp_path : string := CONFIG_PATH ++ ".tmp".

Definition msg_unavailable : string :=
  "config.jsonの読み込みに失敗しました。バックアップも利用できません。".

(** The [try] block of [load_config_safely]. *)
Definition load_primary : io json :=
  config <~ load_json CONFIG_PATH ;;
  v <~ lift (validate_config config) ;;
  let '(is_valid, error_msg) := v in
  if negb is_valid then raise (ValueError ("設定ファイルが無効: " ++ error_msg))
  else
    dump_json CONFIG_SAFE_BACKUP_PATH config ;;;
    ret config.

(** One turn of the loop over the backups: [Some config] when the body
    reaches [return config], [None] when the loop goes on. *)
Definition try_backup (backup_path : string) : io (option json) :=
  present <~ exists_ backup_path ;;
  if present then
    try_except
      (config <~ load_json backup_path ;;
       v <~ lift (validate_config config) ;;
       let '(is_valid, _) := v in
       if is_valid then
         dump_json CONFIG_PATH config ;;;
         ret (Some config)
       else ret None)
      (fun backup_error => ret None)
  else ret None.

Fixpoint restore_from (backups : list string) : io json :=
  match backups with
  | [] => raise (RuntimeError msg_unavailable)
  | backup_path :: rest =>
      found <~ try_backup backup_path ;;
      match found with
      | Some config => ret config
      | None => restore_from rest
      end
  end.

Definition load_config_safely : io json :=
  try_except load_primary
    (fun e => restore_from [CONFIG_SAFE_BACKUP_PATH; CONFIG_BACKUP_PATH]).

(** What [set_config_command] answers to the caller. *)
Inductive reply : Type :=
| ParseError
| Invalid (error_msg : string)
| Updated
| ErrorOccurred (e : exn).

(** The inner [try] of [set_config_command]: [None] stands for the
    [except json.JSONDecodeError] branch. *)
Definition parse_upload : io (option json) :=
  c <~ read_file temp_path ;;
  match json_load c with
  | Return new_config => ret (Some new_config)
  | Raise JSONDecodeError => ret None
  | Raise e => raise e
  end.

Definition backup_current : io unit :=
  present <~ exists_ CONFIG_PATH ;;
  if present then
    current_config <~ read_file CONFIG_PATH ;;
    write_file CONFIG_SAFE_BACKUP_PATH current_config ;;;
    os_replace CONFIG_PATH CONFIG_BACKUP_PATH
  else ret tt.

(** [set_config_command] after the authorisation check; [file] is the
    content of the uploaded attachment. *)
Definition set_config_command (file : content) : io reply :=
  try_except
    (write_file temp_path file ;;;
     parsed <~ parse_upload ;;
     match parsed with
     | None => os_remove temp_path ;;; ret ParseError
     | Some new_config =>
         v <~ lift (validate_config new_config) ;;
         let '(is_valid, error_msg) := v in
         if negb is_valid then os_remove temp_path ;;; ret (Invalid error_msg)
         else
           backup_current ;;;
           os_replace temp_path CONFIG_PATH ;;;
           ret Updated
     end)
    (fun e =>
       present <~ exists_ temp_path ;;
       (if present then os_remove temp_path else ret tt) ;;;
       ret (ErrorOccurred e)).

(** The document a file holds, when the file exists, parses and
    validates. *)
Definition accepted (c : content) : option json :=
  match c with
  | Json j =>
      match validate_config j with
      | Return (true, _) => Some j
      | _ => None
      end
  | Garbage _ | Undecodable | Truncated _ => None
  end.

Definition valid_document (dk : disk) (path : string) : option json :=
  match files dk !! path with
  | Some c => accepted c
  | None => None
  end.

(** The first backup tier that validates: [.safe], then [.bak]. *)
Definition first_valid_backup (dk : disk) : option json :=
  match valid_document dk CONFIG_SAFE_BACKUP_PATH with
  | Some config => Some config
  | None => valid_document dk CONFIG_BACKUP_PATH
  end.

(** The document of a file that validates and that [json.dump] can
    write back. *)
Definition restorable (dk : disk) (path : string) : option json :=
  match valid_document dk path with
  | Some config => if encodable config then Some config else None
  | None => None
  end.

(** The first backup tier that can be restored: [.safe], then [.bak]. *)
Definition first_restorable_backup (dk : disk) : option json :=
  match restorable dk CONFIG_SAFE_BACKUP_PATH with
  | Some config => Some config
  | None => restorable dk CONFIG_BACKUP_PATH
  end.

(** The overwrite of the primary file that fails half-way, for a [.safe]
    that validates but cannot be encoded. *)
Definition failed_restores (dk : disk) : list fs_op :=
  match valid_document dk CONFIG_SAFE_BACKUP_PATH with
  | Some config =>
      if encodable config then [] else [OpWrite CONFIG_PATH (Truncated config)]
  | None => []
  end.

(** Recovery as the specification words it: the candidate is returned,
    promoted to the primary path by a rename of a temporary file, and
    written to [.safe] as well. *)
Definition promotes_and_resaves (dk : disk) : Prop :=
  forall config,
    valid_document dk CONFIG_PATH = None ->
    first_valid_backup dk = Some config ->
    snd (load_config_safely dk) = Return config /\
    files (fst (load_config_safely dk)) !! CONFIG_PATH = Some (Json config) /\
    files (fst (load_config_safely dk)) !! CONFIG_SAFE_BACKUP_PATH
      = Some (Json config) /\
    In (OpReplace temp_path CONFIG_PATH) (ops (fst (load_config_safely dk))).

(** The success path as the claim words it: the document of a primary
    file that parses and validates is returned and written to [.safe],
    the primary file and [.bak] staying as they are. *)
Definition saves_valid_primary (dk : disk) : Prop :=
  forall config,
    valid_document dk CONFIG_PATH = Some config ->
    snd (load_config_safely dk) = Return config /\
    files (fst (load_config_safely dk)) !! CONFIG_SAFE_BACKUP_PATH
      = Some (Json config) /\
    files (fst (load_config_safely dk)) !! CONFIG_PATH
      = files dk !! CONFIG_PATH /\
    files (fst (load_config_safely dk)) !! CONFIG_BACKUP_PATH
      = files dk !! CONFIG_BACKUP_PATH.

(** A disk whose primary file does not parse and whose only backup is a
    valid [.bak]. *)
Definition disk_only_bak : disk :=
  Disk (<[CONFIG_BACKUP_PATH := Json (JDict example_doc)]>
          (<[CONFIG_PATH := Garbage "{"]> ∅)) [].

(** A disk whose primary file holds the example document. *)
Definition disk_primary_ok : disk :=
  Disk (<[CONFIG_PATH := Json (JDict example_doc)]> ∅) [].

(** A disk whose primary file holds the example document with one more
    field, a string that is a lone surrogate (an escape in the file), and
    whose [.bak] holds the example document. *)
Definition disk_surrogate : disk :=
  Disk (<[CONFIG_BACKUP_PATH := Json (JDict example_doc)]>
          (<[CONFIG_PATH := Json (JDict doc_surrogate)]> ∅)) [].

(** A disk whose primary file is not UTF-8. *)
Definition disk_undecodable : disk :=
  Disk (<[CONFIG_PATH := Undecodable]> ∅) [].

(** A disk with three files, none of which parses. *)
Definition disk_all_bad : disk :=
  Disk (<[CONFIG_BACKUP_PATH := Garbage "["]>
          (<[CONFIG_SAFE_BACKUP_PATH := Garbage "]"]>
             (<[CONFIG_PATH := Garbage "{"]> ∅))) [].

End Store.

(** *** The check order, as a decision list

    [first_failure] is the order the code checks in: the four required
    keys are all looked for first, and only then are their types checked.
    [spec_order_first_failure] is the order as the specification words
    it, field by field. *)

Inductive failure : Type :=
| MissingKey (key : string)
| BadGuild
| BadToken
| BadAuthorized
| BadProjects
| NoLocalPath (i : nat).

Definition field_of (f : failure) : string :=
  match f with
  | MissingKey key => key
  | BadGuild => "GUILD_ID"
  | BadToken => "TOKEN"
  | BadAuthorized => "AUTHORIZED_LIST"
  | BadProjects => "PROJECTS"
  | NoLocalPath i => "PROJECTS[" ++ str_nat i ++ "]"
  end.

Definition message (f : failure) : string :=
  match f with
  | MissingKey key => msg_missing key
  | BadGuild => msg_guild
  | BadToken => msg_token
  | BadAuthorized => msg_authorized
  | BadProjects => msg_projects
  | NoLocalPath i => msg_local_path i
  end.

Definition verdict (f : option failure) : bool * string :=
  match f with
  | Some f => (false, message f)
  | None => (true, "OK")
  end.

(** The loop over the projects: the index of the first entry without
    [local_path].  The test is Python's [in]: key membership on an
    object, element membership on a list, substring on a string, and
    [TypeError] on an entry that is a number, a boolean or [null]. *)
Fixpoint first_without_path (i : nat) (projects : list json)
  : result (option failure) :=
  match projects with
  | [] => Return None
  | project :: rest =>
      present <- py_in "local_path" project ;;
      if present then first_without_path (S i) rest
      else Return (Some (NoLocalPath i))
  end.

Definition type_failure (d : dict) : result (option failure) :=
  match lookup "GUILD_ID" d, lookup "TOKEN" d,
        lookup "AUTHORIZED_LIST" d, lookup "PROJECTS" d with
  | Some guild, Some token, Some authorized, Some projects =>
      if negb (isinstance_int guild) then Return (Some BadGuild)
      else if negb (token_ok token) then Return (Some BadToken)
      else if negb (isinstance_list authorized) then Return (Some BadAuthorized)
      else match projects with
           | JList ps => first_without_path 0 ps
           | _ => Return (Some BadProjects)
           end
  | _, _, _, _ => Return None
  end.

Definition first_missing (d : dict) : option string :=
  List.find (fun key => negb (has_key key d)) required_keys.

Definition first_failure (d : dict) : result (option failure) :=
  match first_missing d with
  | Some key => Return (Some (MissingKey key))
  | None => type_failure d
  end.

Definition spec_order_first_failure (d : dict) : result (option failure) :=
  match lookup "GUILD_ID" d with
  | None => Return (Some (MissingKey "GUILD_ID"))
  | Some guild =>
  if negb (isinstance_int guild) then Return (Some BadGuild) else
  match lookup "TOKEN" d with
  | None => Return (Some (MissingKey "TOKEN"))
  | Some token =>
  if negb (token_ok token) then Return (Some BadToken) else
  match lookup "AUTHORIZED_LIST" d with
  | None => Return (Some (MissingKey "AUTHORIZED_LIST"))
  | Some authorized =>
  if negb (isinstance_list authorized) then Return (Some BadAuthorized) else
  match lookup "PROJECTS" d with
  | None => Return (Some (MissingKey "PROJECTS"))
  | Some (JList ps) => first_without_path 0 ps
  | Some _ => Return (Some BadProjects)
  end end end end.

(** The message of a rejected document names the field [f]. *)
Definition rejects_naming (d : dict) (f : failure) : Prop :=
  exists msg, validate_config (JDict d) = Return (false, msg)
              /\ contains (field_of f) msg = true.

(** The projects of a document, when [PROJECTS] is a list. *)
Definition projects_of (d : dict) : list json :=
  match lookup "PROJECTS" d with
  | Some (JList ps) => ps
  | _ => []
  end.

(** The invariant the specification gives for a project entry: a
    non-empty [local_path] string. *)
Definition nonempty_local_path (project : json) : bool :=
  match project with
  | JDict fields =>
      match lookup "local_path" fields with
      | Some (JStr s) => negb (String.eqb s "")
      | _ => false
      end
  | _ => false
  end.

(** The order of checks as the specification words it. *)
Definition follows_spec_order (d : dict) : Prop :=
  forall f, spec_order_first_failure d = Return (Some f) -> rejects_naming d f.

(** A token of twenty characters, sixty bytes. *)
Definition token_kana : string :=
  "ああああああああああああああああああああ".

Definition doc_kana_token : dict :=
  [("GUILD_ID", JInt 123); ("TOKEN", JStr token_kana);
   ("AUTHORIZED_LIST", JList [JInt 1]); ("PROJECTS", JList [])].

(** A document that lacks [GUILD_ID] and whose only project is a number,
    and one with every key well typed but for that project. *)
Definition doc_number_project : dict :=
  [("TOKEN", JStr token51); ("AUTHORIZED_LIST", JList []);
   ("PROJECTS", JList [JInt 5])].

Definition doc_typed_number_project : dict :=
  ("GUILD_ID", JInt 1) :: doc_number_project.

(** [GUILD_ID] is a string and [TOKEN] is absent. *)
Definition doc_bad_guild_no_token : dict :=
  [("GUILD_ID", JStr "abc"); ("AUTHORIZED_LIST", JList [JInt 1]);
   ("PROJECTS", JList [])].

(** A well-typed document whose only project has an empty [local_path]. *)
Definition doc_empty_path : dict :=
  [("GUILD_ID", JInt 123); ("TOKEN", JStr token51);
   ("AUTHORIZED_LIST", JList [JInt 1]);
   ("PROJECTS", JList [JDict [("local_path", JStr "")]])].

End Config.

(** ** Module start-up: absolute paths, argument resolution, names *)

Module Resolver.
Import Py.

(** A value a global name can be bound to.  [VObject name] is an object
    the model does not look into (a module, a function, a handler, a
    path constant, or a list the start-up code mutates in place); it is
    known by the global that binds it and is never a [dict].
    [VDict name dumped] is a [dict] that did not come from [json.load],
    known by its name and by what [json.dumps] makes of it: a text, or
    the exception it raises on a value that is not serialisable. *)
Inductive pyval : Type :=
| VJson (j : json)
| VObject (name : string)
| VDict (name : string) (dumped : result string).

Abbreviation namespace := (list (string * pyval)).

Fixpoint assoc (name : string) (ns : namespace) : option pyval :=
  match ns with
  | [] => None
  | (k, v) :: rest => if String.eqb k name then Some v else assoc name rest
  end.

(** Names bound by the interpreter and by the statements of the file
    above line 117, as CPython 3.11 binds them.  When the file is run as
    a script, [__builtins__] is the module of built-ins and
    [__annotations__] is an empty [dict]; when it is imported,
    [__builtins__] is the [dict] of the built-ins, which [json.dumps]
    rejects, and [__annotations__] is not bound. *)
Definition interpreter_names : list string :=
  ["__name__"; "__doc__"; "__package__"; "__loader__"; "__spec__";
   "__file__"; "__cached__"].

Definition imported_names : list string :=
  ["io"; "json"; "logging"; "os"; "re"; "subprocess"; "sys"; "threading";
   "time"; "traceback"; "urllib"; "psutil"; "unified_diff"; "urlopen";
   "RotatingFileHandler"; "discord"; "commands"; "app_commands";
   "DiscordFile"; "Any"; "Dict"; "List"; "Optional"].

Definition defined_names : list string :=
  ["SCRIPT_DIR"; "LOG_DIR"; "log_file_path"; "log_handler";
   "AUTOMONITOR_GITHUB_PATH"; "AUTOMONITOR_LOCAL_PATH"; "CONFIG_PATH";
   "CONFIG_BACKUP_PATH"; "CONFIG_SAFE_BACKUP_PATH"; "validate_config";
   "load_config_safely"].

Definition plain_globals : namespace :=
  List.map (fun name => (name, VObject name))
    (interpreter_names ++ imported_names ++ defined_names)%list.

(** The namespace at line 117 of the file run as a script, and of the
    file imported as a module. *)
Definition object_globals : namespace :=
  ("__annotations__", VJson (JDict []))
  :: ("__builtins__", VObject "__builtins__") :: plain_globals.

Definition imported_globals : namespace :=
  ("__builtins__", VDict "__builtins__" (Raise TypeError)) :: plain_globals.

(** The names lines 117 to 131 bind. *)
Definition config_names : list string :=
  ["config"; "CHECK_INTERVAL"; "GUILD_ID"; "TOKEN"; "AUTHORIZED_LIST";
   "PROJECTS"; "p"; "proj"].

(** [json.dumps] accepts the value, when it is a [dict]. *)
Definition serialisable (v : pyval) : bool :=
  match v with
  | VDict _ (Raise _) => false
  | _ => true
  end.

(** The names the resolution loop itself assigns. *)
Definition loop_variables : list string :=
  ["project"; "new_args"; "arg"; "value"].

Definition last_binding (name : string) (l : list dict) : namespace :=
  match List.last (List.map Some l) None with
  | Some d => [(name, VJson (JDict d))]
  | None => []
  end.

(** The result of start-up for one project, as the supervisor uses it. *)
Record project : Type := Project {
  name : string;
  local_path : string;
  args : list pyval
}.

Section Startup.

Variable SCRIPT_DIR : string.

(** The names bound when line 117 is reached, by the interpreter and by
    lines 1 to 115. *)
Variable ambient : namespace.

(** [proj = p.copy()] and the rewriting of a relative [local_path]. *)
Definition absolutize (p : json) : result dict :=
  match p with
  | JDict proj =>
      match lookup "local_path" proj with
      | Some (JStr path) =>
          if os_path_isabs path then Return proj
          else Return (dict_set "local_path"
                         (JStr (os_path_join SCRIPT_DIR path)) proj)
      | Some _ => Raise TypeError
      | None => Raise (KeyError "local_path")
      end
  | JList _ => Raise TypeError
  | _ => Raise AttributeError
  end.

Fixpoint absolutize_all (ps : list json) : result (list dict) :=
  match ps with
  | [] => Return []
  | p :: rest =>
      proj <- absolutize p ;;
      others <- absolutize_all rest ;;
      Return (proj :: others)
  end.

(** The globals bound from the loaded configuration, lines 117 to 131:
    [raw] is [config["PROJECTS"]] and [PROJECTS] the absolute copies. *)
Definition config_globals (config : dict) (raw PROJECTS : list dict)
  : result namespace :=
  guild <- subscript (JDict config) "GUILD_ID" ;;
  token <- subscript (JDict config) "TOKEN" ;;
  authorized <- subscript (JDict config) "AUTHORIZED_LIST" ;;
  Return ([("config", VJson (JDict config));
           ("CHECK_INTERVAL", VJson (dict_get "CHECK_INTERVAL" (JInt 60) config));
           ("GUILD_ID", VJson guild);
           ("TOKEN", VJson token);
           ("AUTHORIZED_LIST", VJson authorized);
           ("PROJECTS", VObject "PROJECTS")]
          ++ last_binding "p" raw ++ last_binding "proj" PROJECTS)%list.

(** The bindings of the loop variables while [arg] is being resolved:
    [value] still holds the result of the previous turn, if any. *)
Definition loop_globals (project : dict) (arg : json) (value : option pyval)
  : namespace :=
  ([("project", VJson (JDict project)); ("new_args", VObject "new_args");
    ("arg", VJson arg)]
   ++ match value with Some v => [("value", v)] | None => [] end)%list.

(** [project[arg] if arg in project else globals().get(arg, arg)].  A
    [list] or [dict] token is unhashable; any other token that is not a
    [str] is the key of no [dict] here. *)
Definition resolve (globals : namespace) (project : dict) (arg : json)
  : result pyval :=
  match arg with
  | JStr name =>
      match lookup name project with
      | Some v => Return (VJson v)
      | None =>
          match assoc name globals with
          | Some v => Return v
          | None => Return (VJson arg)
          end
      end
  | JList _ | JDict _ => Raise TypeError
  | _ => Return (VJson arg)
  end.

(** [if isinstance(value, dict): value = json.dumps(value, ensure_ascii=False)] *)
Definition encode_json (j : json) : json :=
  match j with
  | JDict d => JStr (json_dumps (JDict d))
  | _ => j
  end.

Definition encode (value : pyval) : result pyval :=
  match value with
  | VJson j => Return (VJson (encode_json j))
  | VObject _ => Return value
  | VDict _ dumped => text <- dumped ;; Return (VJson (JStr text))
  end.

(** [for arg in project["args"]]: the elements of a list, the characters
    of a string, the keys of an object. *)
Definition iterate (v : json) : result (list json) :=
  match v with
  | JList l => Return l
  | JStr s => Return (List.map JStr (chars s))
  | JDict d => Return (List.map (fun kv => JStr (fst kv)) d)
  | _ => Raise TypeError
  end.

(** The inner loop: the new argument list and the last [value].  The
    names the loop assigns hide older bindings of the same names. *)
Fixpoint resolve_tokens (static : namespace) (project : dict)
    (tokens : list json) (value : option pyval)
  : result (list pyval * option pyval) :=
  match tokens with
  | [] => Return ([], value)
  | arg :: rest =>
      v <- resolve (loop_globals project arg value ++ static)%list project arg ;;
      encoded <- encode v ;;
      r <- resolve_tokens static project rest (Some encoded) ;;
      Return (encoded :: fst r, snd r)
  end.

(** One turn of the outer loop: [None] when the project has no [args]. *)
Definition resolve_project (static : namespace) (project : dict)
    (value : option pyval)
  : result (option (list pyval) * option pyval) :=
  match lookup "args" project with
  | None => Return (None, value)
  | Some a =>
      tokens <- iterate a ;;
      r <- resolve_tokens static project tokens value ;;
      Return (Some (fst r), snd r)
  end.

(** [name, _ = os.path.splitext(os.path.basename(project["local_path"]))] *)
Definition derive_name (path : string) : string :=
  splitext_root (basename path).

Definition finish (proj : dict) (new_args : option (list pyval))
  : result project :=
  match lookup "local_path" proj with
  | Some (JStr path) =>
      Return (Project (derive_name path) path
                (match new_args with Some l => l | None => [] end))
  | _ => Raise TypeError
  end.

Fixpoint resolve_all (static : namespace) (todo : list dict)
    (value : option pyval) : result (list project) :=
  match todo with
  | [] => Return []
  | proj :: rest =>
      r <- resolve_project static proj value ;;
      done_ <- finish proj (fst r) ;;
      others <- resolve_all static rest (snd r) ;;
      Return (done_ :: others)
  end.

Definition as_dicts (ps : list json) : list dict :=
  List.flat_map (fun p => match p with JDict d => [d] | _ => [] end) ps.

(** Lines 117 to 150 for a loaded configuration: the names bound from
    the configuration hide older bindings of the same names. *)
Definition startup (config : dict) : result (list project) :=
  raw <- subscript (JDict config) "PROJECTS" ;;
  ps <- iterate raw ;;
  PROJECTS <- absolutize_all ps ;;
  cfg <- config_globals config (as_dicts ps) PROJECTS ;;
  resolve_all (cfg ++ ambient)%list PROJECTS None.

End Startup.

(** The priority as the specification words it: the project, then the
    configuration document, then the token itself. *)
Definition spec_resolve (config project : dict) (name : string) : json :=
  match lookup name project with
  | Some v => v
  | None =>
      match lookup name config with
      | Some v => v
      | None => JStr name
      end
  end.

(** The priority the code implements: the project, then the module's
    global names, then the token itself. *)
Definition priority (globals : namespace) (project : dict) (name : string)
  : pyval :=
  match lookup name project with
  | Some v => VJson v
  | None =>
      match assoc name globals with
      | Some v => v
      | None => VJson (JStr name)
      end
  end.

(** The argument list the specification's priority gives a project. *)
Definition spec_args (config project : dict) : list pyval :=
  match lookup "args" project with
  | Some (JList tokens) =>
      List.flat_map
        (fun t => match t with
                  | JStr name =>
                      [VJson (encode_json (spec_resolve config project name))]
                  | _ => []
                  end) tokens
  | _ => []
  end.

Definition startup_follows_spec (SCRIPT_DIR : string) (config : dict) : Prop :=
  exists projects,
    startup SCRIPT_DIR object_globals config = Return projects /\
    List.map args projects
    = List.map (spec_args config) (as_dicts (Config.projects_of config)).

(** The example document with one more top-level field, [REGION], that a
    project names in its [args]. *)
Definition doc_region : dict :=
  [("GUILD_ID", JInt 123); ("TOKEN", JStr Config.token51);
   ("AUTHORIZED_LIST", JList [JInt 1]);
   ("REGION", JStr "eu");
   ("PROJECTS",
    JList [JDict [("local_path", JStr "worker.py");
                  ("args", JList [JStr "REGION"])]])].

Definition project_region : dict :=
  [("local_path", JStr "/srv/worker.py"); ("args", JList [JStr "REGION"])].

(** A project with a mapping of its own, and the globals bound from
    [doc_region]. *)
Definition project_sample : dict :=
  [("local_path", JStr "/srv/worker.py");
   ("opts", JDict [("depth", JInt 2)]);
   ("args", JList [JStr "opts"; JStr "GUILD_ID"; JStr "REGION"])].

Definition sample_globals : namespace :=
  match config_globals doc_region [project_sample] [project_sample] with
  | Return cfg => cfg
  | Raise _ => []
  end.

End Resolver.

(** ** The process supervisor *)

Module Supervisor.
Import Py Resolver.

(** How a process reacts when asked to terminate: it exits, it ignores
    the terminate signal and is killed after the grace period, or the
    request is refused ([psutil.AccessDenied]). *)
Inductive behaviour : Type :=
| Exits
| IgnoresTerminate
| DeniesAccess.

Record process : Type := Process {
  pid : Z;
  cmdline : list string;
  reaction : behaviour
}.

Inductive event : Type :=
| EvSleep (seconds : Z)
| EvTerminate (target : Z)
| EvKill (target : Z)
| EvRefused (target : Z)
| EvSpawn (child : Z) (command : list string).

(** The operating system as the supervisor sees it: a clock, read by
    [time.time()] as an exact number of seconds (the rounding of float
    arithmetic is not modelled) and moved only by sleeping and by the
    grace period of a termination, the table of live
    processes, the next free process id, and the log of what the
    supervisor did, each entry stamped with the clock. *)
Record world : Type := World {
  clock : Z;
  table : list process;
  next_pid : Z;
  log : list (Z * event)
}.

Definition record (e : event) (w : world) : world :=
  World (clock w) (table w) (next_pid w) (log w ++ [(clock w, e)]).

Definition advance (seconds : Z) (w : world) : world :=
  World (clock w + seconds) (table w) (next_pid w) (log w).

Definition reap (target : Z) (w : world) : world :=
  World (clock w)
        (List.filter (fun p => negb (Z.eqb (pid p) target)) (table w))
        (next_pid w) (log w).

Definition alive (target : Z) (w : world) : bool :=
  existsb (fun p => Z.eqb (pid p) target) (table w).

(** [time.sleep(seconds)] *)
Definition sleep (seconds : Z) (w : world) : world :=
  advance seconds (record (EvSleep seconds) w).

(** [terminate()], [wait(timeout=5)] and, when the wait times out,
    [kill()]; a refused request raises and the process stays. *)
Definition terminate_wait_kill (p : process) (w : world) : world :=
  match reaction p with
  | Exits => reap (pid p) (record (EvTerminate (pid p)) w)
  | IgnoresTerminate =>
      reap (pid p)
        (record (EvKill (pid p)) (advance 5 (record (EvTerminate (pid p)) w)))
  | DeniesAccess => record (EvRefused (pid p)) w
  end.

(** [any(script_name in str(arg) for arg in cmdline)] *)
Definition references (script_name : string) (p : process) : bool :=
  existsb (contains script_name) (cmdline p).

Definition RESTART_COOLDOWN : Z := 30.

(** The slots of [monitor_scripts]: the handle of each project, [None]
    before the first start, and the time of its last restart. *)
Record slots : Type := Slots {
  processes : gmap string (option Z);
  last_restart_time : gmap string Z
}.

Definition initial_slots (PROJECTS : list project) : slots :=
  Slots (list_to_map (List.map (fun p => (name p, None)) PROJECTS))
        (list_to_map (List.map (fun p => (name p, 0)) PROJECTS)).

(** What [reboot_command] answers. *)
Inductive answer : Type :=
| NotFound
| Restarted (project_name : string).

Section Monitor.

(** [os.getpid()], the built-in [str], and the reaction of a program
    started with a given command line. *)
Variable current_pid : Z.
Variable str_ : pyval -> string.
Variable child_reaction : list string -> behaviour.

Definition kill_step (script_name : string) (w : world) (proc : process)
  : world :=
  if Z.eqb (pid proc) current_pid then w
  else if references script_name proc then terminate_wait_kill proc w
  else w.

(** [kill_existing_process(script_path)]: the loop runs over the
    processes found when it starts. *)
Definition kill_existing_process (script_path : string) (w : world) : world :=
  List.fold_left (kill_step (basename script_path)) (table w) w.

(** [str(a) if not isinstance(a, list) else ",".join(map(str, a))]; for
    an object the model does not look into, [str_] stands for whichever
    of the two texts applies. *)
Definition render (a : pyval) : string :=
  match a with
  | VJson (JList l) => String.concat "," (List.map (fun x => str_ (VJson x)) l)
  | _ => str_ a
  end.

Definition command_of (project : project) : list string :=
  "python" :: local_path project :: List.map render (args project).

(** [subprocess.Popen(args)], taken to succeed. *)
Definition popen (command : list string) (w : world) : Z * world :=
  let child := next_pid w in
  (child,
   record (EvSpawn child command)
     (World (clock w)
            (table w ++ [Process child command (child_reaction command)])
            (child + 1) (log w))).

(** [terminate()] and [wait(timeout=5)] on a handle, [kill()] on any
    exception; nothing happens when the child has already exited. *)
Definition popen_terminate (handle : Z) (w : world) : world :=
  match List.find (fun p => Z.eqb (pid p) handle) (table w) with
  | Some p => terminate_wait_kill p w
  | None => w
  end.

(** [processes[name] is None or processes[name].poll() is not None] *)
Definition stopped (handle : option Z) (w : world) : bool :=
  match handle with
  | None => true
  | Some h => negb (alive h w)
  end.

(** The body of the [for project in PROJECTS] loop of [monitor_scripts]. *)
Definition handle_project (project : project) (st : slots) (w : world)
  : result (slots * world) :=
  match processes st !! name project with
  | None => Raise (KeyError (name project))
  | Some handle =>
      if stopped handle w then
        match last_restart_time st !! name project with
        | None => Raise (KeyError (name project))
        | Some last =>
            let current_time := clock w in
            let time_since_last_restart := current_time - last in
            let w1 :=
              if time_since_last_restart <? RESTART_COOLDOWN
              then sleep (RESTART_COOLDOWN - time_since_last_restart) w
              else w in
            let w2 := kill_existing_process (local_path project) w1 in
            let w3 :=
              match handle with
              | Some h => popen_terminate h w2
              | None => w2
              end in
            let '(child, w4) := popen (command_of project) w3 in
            Return (Slots (<[name project := Some child]> (processes st))
                          (<[name project := clock w4]> (last_restart_time st)),
                    w4)
        end
      else Return (st, w)
  end.

Fixpoint handle_all (todo : list project) (st : slots) (w : world)
  : result (slots * world) :=
  match todo with
  | [] => Return (st, w)
  | project :: rest =>
      r <- handle_project project st w ;;
      handle_all rest (fst r) (snd r)
  end.

(** One turn of the [while True] loop. *)
Definition poll_cycle (PROJECTS : list project) (CHECK_INTERVAL : Z)
    (st : slots) (w : world) : result (slots * world) :=
  r <- handle_all PROJECTS st w ;;
  Return (fst r, sleep CHECK_INTERVAL (snd r)).

(** [reboot_command] after the authorisation check. *)
Definition reboot_command (PROJECTS : list project) (project : string)
    (w : world) : answer * world :=
  match List.find (fun p => String.eqb (name p) project) PROJECTS with
  | None => (NotFound, w)
  | Some p =>
      let '(_, w') := popen (command_of p) w in
      (Restarted (name p), w')
  end.

End Monitor.

(** Number of live processes that reference the launch target. *)
Definition instances (script_path : string) (w : world) : nat :=
  length (List.filter (references (basename script_path)) (table w)).

Definition denies (p : process) : bool :=
  match reaction p with DeniesAccess => true | _ => false end.

(** The processes the scan for [script_name] stops: every process other
    than the supervisor that references the name and lets itself be
    terminated. *)
Definition doomed (current_pid : Z) (script_name : string) (p : process)
  : bool :=
  negb (Z.eqb (pid p) current_pid) && references script_name p
  && negb (denies p).

(** The matching processes the scan leaves in place: the supervisor
    itself and those that refuse termination. *)
Definition spared (current_pid : Z) (script_name : string) (p : process)
  : bool :=
  references script_name p && (Z.eqb (pid p) current_pid || denies p).

Definition is_spawn (e : Z * event) : bool :=
  match snd e with EvSpawn _ _ => true | _ => false end.

(** An entry of the log that is not the start of a process. *)
Definition quiet (e : Z * event) : bool := negb (is_spawn e).

Definition is_sleep (e : Z * event) : bool :=
  match snd e with EvSleep _ => true | _ => false end.

Definition is_stop (e : Z * event) : bool :=
  match snd e with EvTerminate _ | EvKill _ => true | _ => false end.

(** The sample project of the specification's example, a world in which
    one instance of it runs as process 100, and one in which that
    instance belongs to another user. *)
Definition worker : project := Project "worker" "/srv/worker.py" [].

Definition no_str (v : pyval) : string := EmptyString.
Definition exits (command : list string) : behaviour := Exits.

Definition world_running : world :=
  World 1000 [Process 100 ["python"; "/srv/worker.py"] Exits] 101 [].

Definition world_foreign : world :=
  World 1000 [Process 100 ["python"; "/srv/worker.py"] DeniesAccess] 101 [].

(** A slot table in which the worker was last restarted at second 990
    and its handle, process 100, has exited; and a world at second 1000
    with no process. *)
Definition slots_recent : slots :=
  Slots {["worker" := Some 100]} {["worker" := 990]}.

Definition world_empty : world := World 1000 [] 101 [].

(** The guarantee as the specification words it: after the handling of
    a stopped slot exactly one process references its launch target. *)
Definition exactly_one_after_respawn (current_pid : Z)
    (str_ : pyval -> string) (child_reaction : list string -> behaviour)
    (project : project) (st : slots) (w : world) : Prop :=
  forall handle,
    processes st !! name project = Some handle ->
    stopped handle w = true ->
    exists st' w',
      handle_project current_pid str_ child_reaction project st w
        = Return (st', w') /\
      instances (local_path project) w' = 1%nat.

End Supervisor.

(** ** Restoring a backup on request *)

Module Restore.
Import Py Config.

(** What a restore button answers. *)
Inductive restore_reply : Type :=
| BackupInvalid (error_msg : string)
| Restored
| RestoreError (e : exn).

Section Buttons.

Variable SCRIPT_DIR : string.

(** The backups [restore_config_command] offers: those that exist,
    [.safe] before [.bak]. *)
Definition available_backups : io (list string) :=
  has_safe <~ exists_ (CONFIG_SAFE_BACKUP_PATH SCRIPT_DIR) ;;
  has_bak <~ exists_ (CONFIG_BACKUP_PATH SCRIPT_DIR) ;;
  ret ((if has_safe then [CONFIG_SAFE_BACKUP_PATH SCRIPT_DIR] else [])
       ++ (if has_bak then [CONFIG_BACKUP_PATH SCRIPT_DIR] else []))%list.

(** The callback [RestoreConfigView.make_callback] builds for the backup
    at [path]. *)
Definition restore_callback (path : string) : io restore_reply :=
  try_except
    (backup_config <~ load_json path ;;
     v <~ lift (validate_config backup_config) ;;
     let '(is_valid, error_msg) := v in
     if negb is_valid then ret (BackupInvalid error_msg)
     else
       dump_json (CONFIG_PATH SCRIPT_DIR) backup_config ;;;
       ret Restored)
    (fun e => ret (RestoreError e)).

End Buttons.

(** A disk with a valid primary file and the example document in [.bak]. *)
Definition disk_with_bak (SCRIPT_DIR : string) : disk :=
  Disk (<[CONFIG_BACKUP_PATH SCRIPT_DIR := Json (JDict doc_empty_path)]>
          (<[CONFIG_PATH SCRIPT_DIR := Json (JDict example_doc)]> ∅)) [].

(** A disk with a valid primary file and, in [.bak], a document that
    validates but holds a lone surrogate. *)
Definition disk_bak_surrogate (SCRIPT_DIR : string) : disk :=
  Disk (<[CONFIG_BACKUP_PATH SCRIPT_DIR := Json (JDict doc_surrogate)]>
          (<[CONFIG_PATH SCRIPT_DIR := Json (JDict example_doc)]> ∅)) [].

End Restore.

(** ** The monitor loop as a whole *)

Module Watch.
Import Py Resolver Supervisor.

(** A process that ignores the terminate signal. *)
Definition stubborn (p : process) : bool :=
  match reaction p with IgnoresTerminate => true | _ => false end.

(** An entry of the log made by a request for termination. *)
Definition is_request (e : Z * event) : bool :=
  match snd e with
  | EvTerminate _ | EvKill _ | EvRefused _ => true
  | _ => false
  end.

(** The keys of a [dict] filled from a list, in the order of their first
    insertion. *)
Fixpoint first_occurrences (seen names : list string) : list string :=
  match names with
  | [] => []
  | n :: rest =>
      if existsb (String.eqb n) seen then first_occurrences seen rest
      else n :: first_occurrences (n :: seen) rest
  end.

Section Loop.

Variable current_pid : Z.
Variable str_ : pyval -> string.
Variable child_reaction : list string -> behaviour.
Variable PROJECTS : list project.
Variable CHECK_INTERVAL : Z.

(** [cycles] turns of the [while True] loop. *)
Fixpoint run_cycles (cycles : nat) (st : slots) (w : world)
  : result (slots * world) :=
  match cycles with
  | O => Return (st, w)
  | S k =>
      r <- poll_cycle current_pid str_ child_reaction PROJECTS CHECK_INTERVAL
             st w ;;
      run_cycles k (fst r) (snd r)
  end.

(** The [finally] block: every slot that holds a handle has it
    terminated, waited for and, failing that, killed. *)
Definition stop_step (st : slots) (w : world) (slot : string) : world :=
  match processes st !! slot with
  | Some (Some process) => popen_terminate process w
  | _ => w
  end.

Definition stop_all (st : slots) (w : world) : world :=
  List.fold_left (stop_step st)
    (first_occurrences [] (List.map name PROJECTS)) w.

(** [monitor_scripts] interrupted after [cycles] turns of its loop. *)
Definition monitor_scripts (cycles : nat) (w : world) : result world :=
  r <- run_cycles cycles (initial_slots PROJECTS) w ;;
  Return (stop_all (fst r) (snd r)).

End Loop.

(** A second project in another directory whose file is also called
    [worker.py], and a world in which process 100 ignores the terminate
    signal. *)
Definition worker_copy : project := Project "worker" "/opt/worker.py" [].

Definition world_stubborn : world :=
  World 1000 [Process 100 ["python"; "/srv/worker.py"] IgnoresTerminate] 101 [].

(** Every project has an entry in both tables of the loop. *)
Definition covers (PROJECTS : list project) (st : slots) : Prop :=
  forall p, In p PROJECTS ->
    is_Some (processes st !! name p) /\
    is_Some (last_restart_time st !! name p).

(** A project whose file name ends with the worker's, the slots after
    it was started as process 100 and before the worker's first start,
    and the world at that moment. *)
Definition myworker : project := Project "myworker" "/srv/myworker.py" [].

Definition slots_pair : slots :=
  Slots {["myworker" := Some 100; "worker" := None]}
        {["myworker" := 1000; "worker" := 0]}.

Definition world_pair : world :=
  World 1000 [Process 100 ["python"; "/srv/myworker.py"] Exits] 101
        [(1000, EvSpawn 100 ["python"; "/srv/myworker.py"])].

End Watch.

(** ** Raw file addresses on GitHub *)

Module Github.
Import Py.

(** [s.rstrip('/')] *)
Fixpoint rstrip_slash (s : string) : string :=
  match s with
  | EmptyString => EmptyString
  | String c rest =>
      match rstrip_slash rest with
      | EmptyString => if is_slash c then EmptyString else String c EmptyString
      | kept => String c kept
      end
  end.

(** [s.removesuffix(suffix)] *)
Fixpoint removesuffix (suffix s : string) : string :=
  match s with
  | EmptyString => EmptyString
  | String c rest =>
      if String.eqb s suffix then EmptyString
      else String c (removesuffix suffix rest)
  end.

(** What follows the literal [lit] at the start of [s]. *)
Fixpoint after_literal (lit s : string) : option string :=
  match lit, s with
  | EmptyString, _ => Some s
  | String a lit', String b s' =>
      if Ascii.eqb a b then after_literal lit' s' else None
  | String _ _, EmptyString => None
  end.

(** The longest run of characters other than the slash at the start of
    [s], and what follows it: the greedy [[^/]*]. *)
Fixpoint span_segment (s : string) : string * string :=
  match s with
  | EmptyString => (EmptyString, EmptyString)
  | String c rest =>
      if is_slash c then (EmptyString, s)
      else let '(run, rest') := span_segment rest in (String c run, rest')
  end.

(** [$] without flags: the end of the string, or the place before a
    line break that ends it. *)
Definition at_end (s : string) : bool :=
  String.eqb s EmptyString || String.eqb s (String newline EmptyString).

(** [/?$] *)
Definition slash_then_end (s : string) : bool :=
  match s with
  | String c rest => (is_slash c && at_end rest) || at_end s
  | EmptyString => true
  end.

(** [([^/]+?)/?$]: the shortest run of at least one character other than
    the slash after which [/?$] matches. *)
Fixpoint lazy_segment (s : string) : option string :=
  match s with
  | EmptyString => None
  | String c rest =>
      if is_slash c then None
      else if slash_then_end rest then Some (String c EmptyString)
      else option_map (String c) (lazy_segment rest)
  end.

Definition github_prefix : string := "https://github.com/".

(** [https://github\.com/([^/]+)/]: the first group and what follows the
    slash.  The group is greedy, and giving characters back never helps:
    a shorter run is followed by a character that is not the slash. *)
Definition match_user (s : string) : option (string * string) :=
  match after_literal github_prefix s with
  | None => None
  | Some rest =>
      match span_segment rest with
      | (String c user, String _ rest') => Some (String c user, rest')
      | _ => None
      end
  end.

(** [re.match(r"https://github\.com/([^/]+)/([^/]+)$", s)], as the pair
    of its groups.  The greedy second group runs to the next slash or to
    the end, and [$] has to match there: giving characters back leaves a
    slash before the end. *)
Definition match_repo (s : string) : option (string * string) :=
  match match_user s with
  | None => None
  | Some (user, rest) =>
      match span_segment rest with
      | (String c repo, rest') =>
          if at_end rest' then Some (user, String c repo) else None
      | _ => None
      end
  end.

(** [re.match(r"https://github\.com/([^/]+)/([^/]+?)/?$", s)] *)
Definition match_repo_slash (s : string) : option (string * string) :=
  match match_user s with
  | None => None
  | Some (user, rest) =>
      match lazy_segment rest with
      | Some repo => Some (user, repo)
      | None => None
      end
  end.

Definition patterns : list (string -> option (string * string)) :=
  [match_repo; match_repo_slash].

Definition raw_prefix : string := "https://raw.githubusercontent.com/".

(** The [for pattern in patterns] loop: the result for the first pattern
    that matches. *)
Fixpoint first_match (todo : list (string -> option (string * string)))
    (cleaned_path : string) (file_path : string) : option string :=
  match todo with
  | [] => None
  | pattern :: rest =>
      match pattern cleaned_path with
      | Some (user, repo) =>
          Some (raw_prefix ++ user ++ "/" ++ repo ++ "/main/" ++ file_path)
      | None => first_match rest cleaned_path file_path
      end
  end.

(** [if github_file_path: ... else: os.path.basename(local_path)] *)
Definition file_path_of (local_path : string) (github_file_path : option string)
  : string :=
  match github_file_path with
  | Some (String c f) => String c f
  | _ => basename local_path
  end.

Definition get_github_raw_url (github_path local_path : string)
    (github_file_path : option string) : option string :=
  if String.eqb github_path EmptyString then None
  else
    let cleaned_path := removesuffix ".git" (rstrip_slash github_path) in
    first_match patterns cleaned_path
      (file_path_of local_path github_file_path).

End Github.

(** ** Facts about strings and paths *)

Module PyFacts.
Import Py.

Lemma prefix_refl_app (s t : string) : String.prefix s (s ++ t) = true.
Proof.
  induction s as [|c s IH]; simpl.
  - destruct t; reflexivity.
  - destruct (ascii_dec c c) as [_|N]; [exact IH | now destruct N].
Qed.

Lemma contains_prefix (needle hay : string) :
  String.prefix needle hay = true -> contains needle hay = true.
Proof. destruct hay; simpl; intros ->; reflexivity. Qed.

Lemma contains_here (s t : string) : contains s (s ++ t) = true.
Proof. apply contains_prefix, prefix_refl_app. Qed.

Lemma contains_skip (needle pre hay : string) :
  contains needle hay = true -> contains needle (pre ++ hay) = true.
Proof.
  intros H. induction pre as [|c pre IH]; simpl; [exact H|].
  rewrite IH. apply orb_true_r.
Qed.

Lemma contains_middle (pre s post : string) :
  contains s (pre ++ s ++ post) = true.
Proof. apply contains_skip, contains_here. Qed.

Lemma append_cons (c : ascii) (a b : string) :
  String c a ++ b = String c (a ++ b).
Proof. reflexivity. Qed.

Lemma append_nil_r (a : string) : a ++ EmptyString = a.
Proof.
  induction a as [|x a IH]; [reflexivity|].
  rewrite append_cons. f_equal. exact IH.
Qed.

Lemma append_inv_head (a b c : string) : a ++ b = a ++ c -> b = c.
Proof.
  induction a as [|x a IH]; intros H; [exact H|].
  rewrite !append_cons in H. injection H as H. now apply IH.
Qed.

Lemma append_neq_self (a b : string) : b <> EmptyString -> a ++ b <> a.
Proof.
  intros Hb H. apply Hb. apply (append_inv_head a).
  now rewrite append_nil_r.
Qed.

(** The base name is the end of the path. *)
Lemma basename_suffix (p : string) : exists pre, p = pre ++ basename p.
Proof.
  induction p as [|c rest IH]; simpl.
  - exists EmptyString. reflexivity.
  - destruct (has_slash rest).
    + destruct IH as [pre E]. exists (String c pre).
      rewrite append_cons. f_equal. exact E.
    + destruct (is_slash c).
      * exists (String c EmptyString). reflexivity.
      * exists EmptyString. reflexivity.
Qed.

Lemma contains_basename (p : string) : contains (basename p) p = true.
Proof.
  destruct (basename_suffix p) as [pre E]. rewrite E at 2.
  rewrite <- (append_nil_r (basename p)) at 2. apply contains_middle.
Qed.

End PyFacts.

(** ** Facts about the configuration store *)

Module ConfigFacts.
Import Py Config PyFacts.

Lemma check_projects_decided (ps : list json) (i : nat) :
  check_projects i ps
  = (f <- first_without_path i ps ;; Return (option_map message f)).
Proof.
  revert i. induction ps as [|p ps IH]; intros i; [reflexivity|].
  cbn [check_projects first_without_path].
  destruct (py_in "local_path" p) as [[|]|e]; cbn [bind]; [apply IH | |];
    reflexivity.
Qed.

Lemma py_in_raises (key : string) (container : json) (e : exn) :
  py_in key container = Raise e -> e = TypeError.
Proof. destruct container; cbn; congruence. Qed.

Lemma first_without_path_raises (ps : list json) (i : nat) (e : exn) :
  first_without_path i ps = Raise e ->
  e = TypeError /\
  Exists (fun p => py_in "local_path" p = Raise TypeError) ps.
Proof.
  revert i. induction ps as [|p ps IH]; intros i; [discriminate|].
  cbn [first_without_path].
  destruct (py_in "local_path" p) as [[|]|e'] eqn:E; cbn [bind].
  - intros H. destruct (IH _ H) as [-> Hex]. split; [reflexivity|].
    now apply Exists_cons_tl.
  - discriminate.
  - intros [= <-]. pose proof (py_in_raises _ _ _ E) as ->.
    split; [reflexivity|]. now apply Exists_cons_hd.
Qed.

Lemma message_names_field (f : failure) :
  contains (field_of f) (message f) = true.
Proof.
  destruct f; try reflexivity.
  - apply contains_middle.
  - unfold field_of, message, msg_local_path.
    change ("] に 'local_path' がありません")
      with ("]" ++ " に 'local_path' がありません").
    apply contains_prefix.
    induction "PROJECTS[" as [|c s IH].
    + induction (str_nat i) as [|c s IH]; [reflexivity|].
      rewrite !append_cons. simpl. destruct (ascii_dec c c); [exact IH | congruence].
    + rewrite !append_cons. simpl. destruct (ascii_dec c c); [exact IH | congruence].
Qed.

Lemma find_missing_some (d : dict) (key : string) :
  In key required_keys -> has_key key d = false ->
  exists k, first_missing d = Some k.
Proof.
  intros Hin Hk. unfold first_missing.
  destruct (List.find (fun key => negb (has_key key d)) required_keys) eqn:E.
  - eauto.
  - exfalso. apply (List.find_none _ _ E) in Hin. now rewrite Hk in Hin.
Qed.

(** C5 (as amended): for every object, [validate_config] looks for the
    four required keys first, in the order GUILD_ID, TOKEN,
    AUTHORIZED_LIST, PROJECTS, and only then checks the type of
    GUILD_ID, the type and length in characters of TOKEN, the type of
    AUTHORIZED_LIST, the type of PROJECTS and, project by project, the
    presence of local_path; the message names the field of the first
    failing check, and a document missing a required key is rejected
    with a message naming a missing key.  The only way not to get a
    verdict is a project entry that is a number, a boolean or [null],
    reached with every earlier check passed: the test for local_path
    then raises [TypeError]. *)
Theorem validate_config_check_order (d : dict) :
  validate_config (JDict d) = (f <- first_failure d ;; Return (verdict f)) /\
  (forall f, first_failure d = Return (Some f) ->
             contains (field_of f) (message f) = true) /\
  (forall key, In key required_keys -> has_key key d = false ->
     exists k, In k required_keys /\ has_key k d = false /\
               first_failure d = Return (Some (MissingKey k))) /\
  (forall e, first_failure d = Raise e ->
     e = TypeError /\ first_missing d = None /\
     exists ps, lookup "PROJECTS" d = Some (JList ps) /\
                Exists (fun p => py_in "local_path" p = Raise TypeError) ps).
Proof.
  split; [|split; [|split]].
  - unfold validate_config, first_failure, first_missing, type_failure,
      required_keys.
    simpl. unfold has_key.
    destruct (lookup "GUILD_ID" d) as [guild|]; [|reflexivity]. simpl.
    destruct (lookup "TOKEN" d) as [token|]; [|reflexivity]. simpl.
    destruct (lookup "AUTHORIZED_LIST" d) as [authorized|]; [|reflexivity]. simpl.
    destruct (lookup "PROJECTS" d) as [projects|]; [|reflexivity]. simpl.
    destruct (isinstance_int guild); [|reflexivity]. simpl.
    destruct (token_ok token); [|reflexivity]. simpl.
    destruct (isinstance_list authorized); [|reflexivity]. simpl.
    destruct projects; try reflexivity.
    rewrite check_projects_decided.
    destruct (first_without_path 0 l) as [[f|]|e]; reflexivity.
  - intros f _. apply message_names_field.
  - intros key Hin Hk. destruct (find_missing_some d key Hin Hk) as [k E].
    exists k. unfold first_failure. rewrite E.
    unfold first_missing in E. pose proof (List.find_some _ _ E) as [Hk1 Hk2].
    repeat split; [exact Hk1 | now destruct (has_key k d)].
  - intros e. unfold first_failure.
    destruct (first_missing d) as [key|]; [discriminate|].
    unfold type_failure.
    destruct (lookup "GUILD_ID" d) as [guild|]; [|discriminate].
    destruct (lookup "TOKEN" d) as [token|]; [|discriminate].
    destruct (lookup "AUTHORIZED_LIST" d) as [authorized|]; [|discriminate].
    destruct (lookup "PROJECTS" d) as [projects|]; [|discriminate].
    destruct (negb (isinstance_int guild)); [discriminate|].
    destruct (negb (token_ok token)); [discriminate|].
    destruct (negb (isinstance_list authorized)); [discriminate|].
    destruct projects as [| | | | |ps|]; try discriminate.
    intros H. destruct (first_without_path_raises ps 0 e H) as [-> Hex].
    repeat split. eauto.
Qed.

Lemma validate_config_check_order_witness :
  validate_config (JDict doc_bad_guild_no_token)
    = Return (false, msg_missing "TOKEN") /\
  validate_config (JDict example_doc) = Return (true, "OK") /\
  validate_config (JDict doc_kana_token) = Return (false, msg_token) /\
  validate_config (JDict doc_number_project)
    = Return (false, msg_missing "GUILD_ID") /\
  validate_config (JDict doc_typed_number_project) = Raise TypeError.
Proof.
  split; [|split; [|split; [|split]]].
  - exact (proj1 (validate_config_check_order doc_bad_guild_no_token)).
  - exact (proj1 (validate_config_check_order example_doc)).
  - exact (proj1 (validate_config_check_order doc_kana_token)).
  - exact (proj1 (validate_config_check_order doc_number_project)).
  - exact (proj1 (validate_config_check_order doc_typed_number_project)).
Defined.

(** C5 (as stated) fails: with GUILD_ID of the wrong type and TOKEN
    absent, the field-by-field order stops at GUILD_ID, but the message
    names TOKEN. *)
Lemma spec_order_counterexample : ~ follows_spec_order doc_bad_guild_no_token.
Proof.
  intros H. destruct (H BadGuild eq_refl) as [msg [Hv Hc]].
  vm_compute in Hv. injection Hv as <-. vm_compute in Hc. discriminate.
Qed.

Lemma check_projects_passed (ps : list json) (i : nat) :
  check_projects i ps = Return None ->
  Forall (fun p => py_in "local_path" p = Return true) ps.
Proof.
  revert i. induction ps as [|p ps IH]; intros i H; [constructor|].
  simpl in H. destruct (py_in "local_path" p) as [[|]|e] eqn:E;
    simpl in H; try discriminate.
  constructor; [exact E | eapply IH, H].
Qed.

Lemma validate_config_needs_dict (doc : json) (msg : string) :
  validate_config doc = Return (true, msg) -> exists d, doc = JDict d.
Proof.
  intros H. destruct doc; eauto; exfalso; unfold validate_config in H;
    match type of H with
    | context [check_required ?k ?c] =>
        destruct (check_required k c) as [[m|]|e]; simpl in H; discriminate
    end.
Qed.

(** C6 (as amended): every document [validate_config] accepts has the
    four required keys with the checked types, and each entry of
    PROJECTS contains local_path; nothing is checked about the value of
    local_path. *)
Theorem accepted_projects_have_local_path (doc : json) (msg : string) :
  validate_config doc = Return (true, msg) ->
  exists d guild token authorized ps,
    doc = JDict d /\
    lookup "GUILD_ID" d = Some guild /\ isinstance_int guild = true /\
    lookup "TOKEN" d = Some token /\ token_ok token = true /\
    lookup "AUTHORIZED_LIST" d = Some (JList authorized) /\
    lookup "PROJECTS" d = Some (JList ps) /\
    Forall (fun p => py_in "local_path" p = Return true) ps.
Proof.
  intros H. destruct (validate_config_needs_dict doc msg H) as [d ->].
  exists d. unfold validate_config, required_keys in H. simpl in H.
  unfold has_key in H.
  destruct (lookup "GUILD_ID" d) as [guild|]; [|discriminate]. simpl in H.
  destruct (lookup "TOKEN" d) as [token|]; [|discriminate]. simpl in H.
  destruct (lookup "AUTHORIZED_LIST" d) as [authorized|]; [|discriminate].
  simpl in H.
  destruct (lookup "PROJECTS" d) as [projects|]; [|discriminate]. simpl in H.
  destruct (isinstance_int guild) eqn:Hg; [|discriminate]. simpl in H.
  destruct (token_ok token) eqn:Ht; [|discriminate]. simpl in H.
  destruct authorized as [| | | | |authorized|]; try discriminate. simpl in H.
  destruct projects as [| | | | |ps|]; try discriminate.
  destruct (check_projects 0 ps) as [[m|]|e] eqn:Hp; try discriminate.
  exists guild, token, authorized, ps.
  repeat split; try reflexivity; try assumption.
  eapply check_projects_passed, Hp.
Qed.

Lemma accepted_projects_have_local_path_witness :
  exists d guild token authorized ps,
    JDict doc_empty_path = JDict d /\
    lookup "GUILD_ID" d = Some guild /\ isinstance_int guild = true /\
    lookup "TOKEN" d = Some token /\ token_ok token = true /\
    lookup "AUTHORIZED_LIST" d = Some (JList authorized) /\
    lookup "PROJECTS" d = Some (JList ps) /\
    Forall (fun p => py_in "local_path" p = Return true) ps.
Proof.
  apply (accepted_projects_have_local_path (JDict doc_empty_path) "OK").
  reflexivity.
Defined.

(** C6 (as stated) fails: a document whose only project has the empty
    string as local_path is accepted. *)
Lemma empty_local_path_accepted :
  validate_config (JDict doc_empty_path) = Return (true, "OK") /\
  forallb nonempty_local_path (projects_of doc_empty_path) = false.
Proof. split; reflexivity. Qed.

Section StoreFacts.

Variable SCRIPT_DIR : string.

Local Abbreviation primary := (CONFIG_PATH SCRIPT_DIR).
Local Abbreviation safe := (CONFIG_SAFE_BACKUP_PATH SCRIPT_DIR).
Local Abbreviation bak := (CONFIG_BACKUP_PATH SCRIPT_DIR).
Local Abbreviation tmp := (temp_path SCRIPT_DIR).

Lemma safe_ne_primary : safe <> primary.
Proof. apply append_neq_self. discriminate. Qed.

Lemma bak_ne_primary : bak <> primary.
Proof. apply append_neq_self. discriminate. Qed.

Lemma tmp_ne_primary : tmp <> primary.
Proof. apply append_neq_self. discriminate. Qed.

Lemma safe_ne_bak : safe <> bak.
Proof. intros H. apply append_inv_head in H. discriminate. Qed.

Lemma tmp_ne_safe : tmp <> safe.
Proof. intros H. apply append_inv_head in H. discriminate. Qed.

Lemma tmp_ne_bak : tmp <> bak.
Proof. intros H. apply append_inv_head in H. discriminate. Qed.

Ltac run_io :=
  unfold load_primary, try_backup, load_json, dump_json, io_bind, try_except,
    read_file, write_file, exists_, lift, raise, ret, json_load.

Lemma accepted_json (c : content) (config : json) :
  accepted c = Some config ->
  c = Json config /\ exists msg, validate_config config = Return (true, msg).
Proof.
  destruct c as [j|t| |j]; try discriminate. unfold accepted.
  destruct (validate_config j) as [[[|] m]|e] eqn:V; try discriminate.
  intros [= <-]. eauto.
Qed.

Lemma valid_document_json (dk : disk) (path : string) (config : json) :
  valid_document dk path = Some config ->
  files dk !! path = Some (Json config).
Proof.
  unfold valid_document. destruct (files dk !! path) as [c|]; [|discriminate].
  intros H. now destruct (accepted_json c config H) as [-> _].
Qed.

Lemma valid_document_validates (dk : disk) (path : string) (config : json) :
  valid_document dk path = Some config ->
  exists msg, validate_config config = Return (true, msg).
Proof.
  unfold valid_document. destruct (files dk !! path) as [c|]; [|discriminate].
  intros H. now destruct (accepted_json c config H) as [_ ?].
Qed.

Lemma valid_document_of_json (dk : disk) (path : string) (config : json)
    (msg : string) :
  files dk !! path = Some (Json config) ->
  validate_config config = Return (true, msg) ->
  valid_document dk path = Some config.
Proof.
  intros Hf Hv. unfold valid_document, accepted. now rewrite Hf, Hv.
Qed.

(** A write to another file does not change what a file holds. *)
Lemma valid_document_other (dk : disk) (path other : string) (c : content)
    (l : list fs_op) :
  other <> path ->
  valid_document (Disk (<[other := c]> (files dk)) l) path
  = valid_document dk path.
Proof.
  intros Hne. unfold valid_document. cbn [files].
  now rewrite lookup_insert_ne.
Qed.

Lemma load_primary_valid (dk : disk) (config : json) :
  valid_document dk primary = Some config ->
  encodable config = true ->
  load_primary SCRIPT_DIR dk
  = (Disk (<[safe := Json config]> (files dk))
          (ops dk ++ [OpWrite safe (Json config)]), Return config).
Proof.
  intros Hv He. pose proof (valid_document_json dk _ _ Hv) as Hf.
  destruct (valid_document_validates dk _ _ Hv) as [msg Hm].
  run_io. rewrite Hf. cbv beta iota. rewrite Hm. cbv beta iota; cbn [negb].
  rewrite He. reflexivity.
Qed.

Lemma load_primary_unencodable (dk : disk) (config : json) :
  valid_document dk primary = Some config ->
  encodable config = false ->
  load_primary SCRIPT_DIR dk
  = (Disk (<[safe := Truncated config]> (files dk))
          (ops dk ++ [OpWrite safe (Truncated config)]),
     Raise UnicodeEncodeError).
Proof.
  intros Hv He. pose proof (valid_document_json dk _ _ Hv) as Hf.
  destruct (valid_document_validates dk _ _ Hv) as [msg Hm].
  run_io. rewrite Hf. cbv beta iota. rewrite Hm. cbv beta iota; cbn [negb].
  rewrite He. reflexivity.
Qed.

Lemma load_primary_invalid (dk : disk) :
  valid_document dk primary = None ->
  exists e, load_primary SCRIPT_DIR dk = (dk, Raise e).
Proof.
  unfold valid_document, accepted. run_io.
  destruct (files dk !! primary) as [[j|t| |j]|]; simpl; eauto.
  destruct (validate_config j) as [[[|] m]|e]; try discriminate; eauto.
Qed.

Lemma try_backup_valid (dk : disk) (path : string) (config : json) :
  valid_document dk path = Some config ->
  encodable config = true ->
  try_backup SCRIPT_DIR path dk
  = (Disk (<[primary := Json config]> (files dk))
          (ops dk ++ [OpWrite primary (Json config)]), Return (Some config)).
Proof.
  intros Hv He. pose proof (valid_document_json dk _ _ Hv) as Hf.
  destruct (valid_document_validates dk _ _ Hv) as [msg Hm].
  run_io. rewrite bool_decide_eq_true_2 by eauto. rewrite Hf.
  cbv beta iota. rewrite Hm. cbv beta iota. rewrite He. reflexivity.
Qed.

Lemma try_backup_unencodable (dk : disk) (path : string) (config : json) :
  valid_document dk path = Some config ->
  encodable config = false ->
  try_backup SCRIPT_DIR path dk
  = (Disk (<[primary := Truncated config]> (files dk))
          (ops dk ++ [OpWrite primary (Truncated config)]), Return None).
Proof.
  intros Hv He. pose proof (valid_document_json dk _ _ Hv) as Hf.
  destruct (valid_document_validates dk _ _ Hv) as [msg Hm].
  run_io. rewrite bool_decide_eq_true_2 by eauto. rewrite Hf.
  cbv beta iota. rewrite Hm. cbv beta iota. rewrite He. reflexivity.
Qed.

Lemma try_backup_invalid (dk : disk) (path : string) :
  valid_document dk path = None ->
  try_backup SCRIPT_DIR path dk = (dk, Return None).
Proof.
  unfold valid_document, accepted. run_io.
  destruct (files dk !! path) as [[j|t| |j]|] eqn:E;
    try (rewrite bool_decide_eq_true_2 by eauto; rewrite E; reflexivity).
  - rewrite bool_decide_eq_true_2 by eauto. rewrite E. simpl.
    destruct (validate_config j) as [[[|] m]|e]; try discriminate; reflexivity.
  - rewrite bool_decide_eq_false_2; [reflexivity|].
    intros [c Hc]. discriminate.
Qed.

(** C3: when the primary file and both backups fail to parse or
    validate, [load_config_safely] raises the fatal error and performs
    no file operation at all: the disk is returned as it was. *)
Theorem load_fails_without_writing (dk : disk) :
  valid_document dk primary = None ->
  valid_document dk safe = None ->
  valid_document dk bak = None ->
  load_config_safely SCRIPT_DIR dk = (dk, Raise (RuntimeError msg_unavailable)).
Proof.
  intros Hp Hs Hb. unfold load_config_safely, try_except.
  destruct (load_primary_invalid dk Hp) as [e ->].
  unfold restore_from, io_bind.
  rewrite (try_backup_invalid dk safe Hs), (try_backup_invalid dk bak Hb).
  reflexivity.
Qed.

(** What the walk over [.bak] alone gives. *)
Lemma restore_from_bak (dk : disk) :
  restore_from SCRIPT_DIR [bak] dk
  = match valid_document dk bak with
    | Some config =>
        if encodable config then
          (Disk (<[primary := Json config]> (files dk))
                (ops dk ++ [OpWrite primary (Json config)]), Return config)
        else
          (Disk (<[primary := Truncated config]> (files dk))
                (ops dk ++ [OpWrite primary (Truncated config)]),
           Raise (RuntimeError msg_unavailable))
    | None => (dk, Raise (RuntimeError msg_unavailable))
    end.
Proof.
  unfold restore_from, io_bind.
  destruct (valid_document dk bak) as [config|] eqn:Hb.
  - destruct (encodable config) eqn:He.
    + now rewrite (try_backup_valid dk bak config Hb He).
    + now rewrite (try_backup_unencodable dk bak config Hb He).
  - now rewrite (try_backup_invalid dk bak Hb).
Qed.

Lemma restore_from_cons (dk : disk) (path : string) (rest : list string) :
  restore_from SCRIPT_DIR (path :: rest) dk
  = match try_backup SCRIPT_DIR path dk with
    | (dk', Return (Some config)) => (dk', Return config)
    | (dk', Return None) => restore_from SCRIPT_DIR rest dk'
    | (dk', Raise e) => (dk', Raise e)
    end.
Proof.
  cbn [restore_from]. unfold io_bind.
  destruct (try_backup SCRIPT_DIR path dk) as [dk' [[c|]|e]]; reflexivity.
Qed.

Lemma restore_from_skips (dk : disk) (path : string) (rest : list string) :
  valid_document dk path = None ->
  restore_from SCRIPT_DIR (path :: rest) dk = restore_from SCRIPT_DIR rest dk.
Proof.
  intros H. cbn [restore_from]. unfold io_bind.
  now rewrite (try_backup_invalid dk path H).
Qed.

Lemma load_invalid_primary (dk : disk) :
  valid_document dk primary = None ->
  load_config_safely SCRIPT_DIR dk = restore_from SCRIPT_DIR [safe; bak] dk.
Proof.
  intros Hp. unfold load_config_safely, try_except.
  now destruct (load_primary_invalid dk Hp) as [e ->].
Qed.

(** The load of a primary file that validates but cannot be written
    back. *)
Lemma load_unencodable_primary (dk : disk) (config : json) :
  valid_document dk primary = Some config ->
  encodable config = false ->
  load_config_safely SCRIPT_DIR dk
  = match valid_document dk bak with
    | Some other =>
        if encodable other then
          (Disk (<[primary := Json other]>
                   (<[safe := Truncated config]> (files dk)))
                (ops dk ++ [OpWrite safe (Truncated config);
                            OpWrite primary (Json other)]), Return other)
        else
          (Disk (<[primary := Truncated other]>
                   (<[safe := Truncated config]> (files dk)))
                (ops dk ++ [OpWrite safe (Truncated config);
                            OpWrite primary (Truncated other)]),
           Raise (RuntimeError msg_unavailable))
    | None =>
        (Disk (<[safe := Truncated config]> (files dk))
              (ops dk ++ [OpWrite safe (Truncated config)]),
         Raise (RuntimeError msg_unavailable))
    end.
Proof.
  intros Hp He. unfold load_config_safely, try_except.
  rewrite (load_primary_unencodable dk config Hp He).
  rewrite restore_from_skips
    by (unfold valid_document; cbn [files]; now rewrite lookup_insert_eq).
  rewrite restore_from_bak.
  rewrite (valid_document_other dk bak safe) by apply safe_ne_bak.
  cbn [files ops].
  destruct (valid_document dk bak) as [other|]; [|reflexivity].
  destruct (encodable other); now rewrite <- app_assoc.
Qed.


(** C1 (as amended): when the primary file fails and a backup validates
    and holds no lone surrogate, [.safe] consulted before [.bak],
    [load_config_safely] returns the first such candidate and leaves it
    in the primary file, written by direct overwrite: one overwrite, or
    two when [.safe] validates but holds a lone surrogate, the first
    write then failing half-way before [.bak] is tried.  No temporary
    file is renamed and neither [.safe] nor [.bak] is written. *)
Theorem load_restores_primary_from_backup (dk : disk) (config : json) :
  valid_document dk primary = None ->
  first_restorable_backup SCRIPT_DIR dk = Some config ->
  load_config_safely SCRIPT_DIR dk
  = (Disk (<[primary := Json config]> (files dk))
          (ops dk ++ failed_restores SCRIPT_DIR dk
             ++ [OpWrite primary (Json config)]), Return config) /\
  files (fst (load_config_safely SCRIPT_DIR dk)) !! primary
    = Some (Json config) /\
  files (fst (load_config_safely SCRIPT_DIR dk)) !! safe = files dk !! safe /\
  files (fst (load_config_safely SCRIPT_DIR dk)) !! bak = files dk !! bak.
Proof.
  intros Hp Hb.
  assert (Hload :
    load_config_safely SCRIPT_DIR dk
    = (Disk (<[primary := Json config]> (files dk))
            (ops dk ++ failed_restores SCRIPT_DIR dk
               ++ [OpWrite primary (Json config)]), Return config)).
  { rewrite (load_invalid_primary dk Hp).
    unfold first_restorable_backup, restorable, failed_restores in *.
    destruct (valid_document dk safe) as [s|] eqn:Hs.
    - destruct (encodable s) eqn:Hes.
      + injection Hb as ->.
        now rewrite restore_from_cons, (try_backup_valid dk safe config Hs Hes).
      + rewrite restore_from_cons, (try_backup_unencodable dk safe s Hs Hes).
        rewrite restore_from_bak.
        rewrite (valid_document_other dk bak primary)
          by (intros E; symmetry in E; revert E; apply bak_ne_primary).
        destruct (valid_document dk bak) as [b|]; [|discriminate].
        destruct (encodable b); [|discriminate]. injection Hb as ->.
        cbn [files ops]. now rewrite insert_insert_eq, <- app_assoc.
    - rewrite (restore_from_skips dk safe [bak] Hs), restore_from_bak.
      destruct (valid_document dk bak) as [b|]; [|discriminate].
      destruct (encodable b); [|discriminate]. now injection Hb as ->. }
  split; [exact Hload|]. rewrite Hload. cbn [fst files]. repeat split.
  - apply lookup_insert_eq.
  - apply lookup_insert_ne. intros E. now apply safe_ne_primary.
  - apply lookup_insert_ne. intros E. now apply bak_ne_primary.
Qed.


End StoreFacts.

Lemma load_fails_without_writing_witness :
  load_config_safely "/srv" (disk_all_bad "/srv")
  = (disk_all_bad "/srv", Raise (RuntimeError msg_unavailable)).
Proof.
  apply (load_fails_without_writing "/srv" (disk_all_bad "/srv"));
    vm_compute; reflexivity.
Defined.



Lemma load_restores_primary_from_backup_witness :
  files (fst (load_config_safely "/srv" (disk_only_bak "/srv")))
    !! CONFIG_SAFE_BACKUP_PATH "/srv"
  = files (disk_only_bak "/srv") !! CONFIG_SAFE_BACKUP_PATH "/srv".
Proof.
  apply (load_restores_primary_from_backup "/srv" (disk_only_bak "/srv")
           (JDict example_doc)); vm_compute; reflexivity.
Defined.

(** C1 (as stated) fails: with an unreadable primary file, no [.safe]
    and a valid [.bak], the document of [.bak] is returned and written
    to the primary file, but [.safe] is not written and stays absent. *)
Lemma recovery_does_not_resave : ~ promotes_and_resaves "/srv" (disk_only_bak "/srv").
Proof.
  intros H.
  assert (Hp : valid_document (disk_only_bak "/srv") (CONFIG_PATH "/srv") = None)
    by (vm_compute; reflexivity).
  assert (Hb : first_valid_backup "/srv" (disk_only_bak "/srv")
               = Some (JDict example_doc))
    by (vm_compute; reflexivity).
  destruct (H _ Hp Hb) as (_ & _ & Hs & _).
  vm_compute in Hs. discriminate.
Qed.


End ConfigFacts.

(** ** Facts about the supervisor *)

Module SupervisorFacts.
Import Py Resolver Supervisor PyFacts.

Section MonitorFacts.

Variable current_pid : Z.
Variable str_ : pyval -> string.
Variable child_reaction : list string -> behaviour.

Local Abbreviation kill_step := (kill_step current_pid).
Local Abbreviation doomed := (doomed current_pid).
Local Abbreviation spared := (spared current_pid).

(** What one request for termination does to the world. *)
Lemma terminate_wait_kill_effect (p : process) (w : world) :
  next_pid (terminate_wait_kill p w) = next_pid w /\
  clock w <= clock (terminate_wait_kill p w) /\
  table (terminate_wait_kill p w)
  = (if denies p then table w
     else List.filter (fun q => negb (Z.eqb (pid q) (pid p))) (table w)) /\
  exists evs, log (terminate_wait_kill p w) = (log w ++ evs)%list /\
              forallb quiet evs = true /\
              (denies p = false -> In (EvTerminate (pid p)) (List.map snd evs)).
Proof.
  unfold terminate_wait_kill, denies.
  destruct (reaction p); cbn; repeat split; try lia.
  - exists [(clock w, EvTerminate (pid p))]. cbn. auto.
  - exists [(clock w, EvTerminate (pid p)); (clock w + 5, EvKill (pid p))].
    cbn. rewrite <- app_assoc. auto.
  - exists [(clock w, EvRefused (pid p))]. cbn. repeat split. discriminate.
Qed.

Lemma filter_twice {A} (f g : A -> bool) (l : list A) :
  List.filter f (List.filter g l) = List.filter (fun x => g x && f x) l.
Proof.
  induction l as [|x l IH]; [reflexivity|]. cbn.
  destruct (g x); cbn; [destruct (f x)|]; now rewrite IH.
Qed.

Lemma filter_all {A} (f : A -> bool) (l : list A) :
  (forall x, In x l -> f x = true) -> List.filter f l = l.
Proof.
  induction l as [|x l IH]; intros H; [reflexivity|]. cbn.
  rewrite (H x (or_introl eq_refl)). f_equal. apply IH.
  intros y Hy. apply H. now right.
Qed.

Lemma kill_step_effect (script_name : string) (w : world) (p : process) :
  next_pid (kill_step script_name w p) = next_pid w /\
  clock w <= clock (kill_step script_name w p) /\
  table (kill_step script_name w p)
  = (if doomed script_name p
     then List.filter (fun q => negb (Z.eqb (pid q) (pid p))) (table w)
     else table w) /\
  exists evs, log (kill_step script_name w p) = (log w ++ evs)%list /\
              forallb quiet evs = true /\
              (doomed script_name p = true ->
               In (EvTerminate (pid p)) (List.map snd evs)).
Proof.
  unfold Supervisor.kill_step, Supervisor.doomed.
  destruct (Z.eqb (pid p) current_pid); cbn [negb andb].
  { repeat split; try lia. exists []. rewrite app_nil_r.
    repeat split. discriminate. }
  destruct (references script_name p); cbn [andb].
  2:{ repeat split; try lia. exists []. rewrite app_nil_r.
      repeat split. discriminate. }
  destruct (terminate_wait_kill_effect p w) as (Hn & Hc & Ht & evs & Hl & Hq & Hin).
  repeat split; try assumption.
  - rewrite Ht. now destruct (denies p).
  - exists evs. repeat split; try assumption.
    intros Hd. apply Hin. now destruct (denies p).
Qed.

Lemma kill_fold_effect (script_name : string) (l : list process) (w : world) :
  next_pid (List.fold_left (kill_step script_name) l w) = next_pid w /\
  clock w <= clock (List.fold_left (kill_step script_name) l w) /\
  table (List.fold_left (kill_step script_name) l w)
  = List.filter
      (fun q => negb (existsb (fun p => doomed script_name p
                                        && Z.eqb (pid q) (pid p)) l))
      (table w) /\
  exists evs,
    log (List.fold_left (kill_step script_name) l w) = (log w ++ evs)%list /\
    forallb quiet evs = true /\
    (forall p, In p l -> doomed script_name p = true ->
               In (EvTerminate (pid p)) (List.map snd evs)).
Proof.
  revert w. induction l as [|a l IH]; intros w; cbn [List.fold_left existsb].
  - repeat split; try lia.
    + symmetry. now apply filter_all.
    + exists []. rewrite app_nil_r. repeat split. intros p [].
  - destruct (kill_step_effect script_name w a)
      as (Hn & Hc & Ht & evs & Hl & Hq & Hin).
    destruct (IH (kill_step script_name w a))
      as (Hn' & Hc' & Ht' & evs' & Hl' & Hq' & Hin').
    repeat split; try lia.
    + rewrite Ht', Ht.
      destruct (doomed script_name a); cbn [andb orb].
      * rewrite filter_twice. apply List.filter_ext. intros q.
        now rewrite negb_orb.
      * reflexivity.
    + exists (evs ++ evs')%list. rewrite Hl', Hl, app_assoc.
      repeat split.
      * now rewrite forallb_app, Hq, Hq'.
      * intros p [-> | Hp] Hd; rewrite List.map_app; apply in_or_app;
          [left | right]; auto.
Qed.

Lemma same_pid_same_process (l : list process) (p q : process) :
  NoDup (List.map pid l) -> In p l -> In q l -> pid p = pid q -> p = q.
Proof.
  induction l as [|a l IH]; cbn; intros Hnd Hp Hq E; [contradiction|].
  apply NoDup_cons in Hnd as [Ha Hnd].
  destruct Hp as [<- | Hp], Hq as [<- | Hq]; auto.
  - exfalso. apply Ha. rewrite E. apply list_elem_of_In, in_map, Hq.
  - exfalso. apply Ha. rewrite <- E. apply list_elem_of_In, in_map, Hp.
Qed.

(** With distinct process ids, the scan removes exactly the doomed
    processes. *)
Lemma scan_table (script_path : string) (w : world) :
  NoDup (List.map pid (table w)) ->
  table (kill_existing_process current_pid script_path w)
  = List.filter (fun q => negb (doomed (basename script_path) q)) (table w).
Proof.
  intros Hnd. unfold kill_existing_process.
  destruct (kill_fold_effect (basename script_path) (table w) w)
    as (_ & _ & -> & _).
  apply List.filter_ext_in. intros q Hq. f_equal.
  destruct (doomed (basename script_path) q) eqn:Hd.
  - apply existsb_exists. exists q. split; [exact Hq|].
    now rewrite Hd, Z.eqb_refl.
  - apply not_true_is_false. intros H.
    apply existsb_exists in H as (p & Hp & H).
    apply andb_true_iff in H as [Hdp E]. apply Z.eqb_eq in E.
    rewrite (same_pid_same_process _ q p Hnd Hq Hp E) in Hd. congruence.
Qed.

Lemma scan_leaves_spared (script_path : string) (w : world) :
  NoDup (List.map pid (table w)) ->
  List.filter (references (basename script_path))
    (table (kill_existing_process current_pid script_path w))
  = List.filter (spared (basename script_path)) (table w).
Proof.
  intros Hnd. rewrite (scan_table _ _ Hnd), filter_twice.
  apply List.filter_ext. intros q.
  unfold Supervisor.doomed, Supervisor.spared.
  destruct (Z.eqb (pid q) current_pid), (references (basename script_path) q),
    (denies q); reflexivity.
Qed.

Lemma scan_keeps_dead (script_path : string) (w : world) (h : Z) :
  alive h w = false ->
  alive h (kill_existing_process current_pid script_path w) = false.
Proof.
  unfold alive, kill_existing_process. intros H.
  destruct (kill_fold_effect (basename script_path) (table w) w)
    as (_ & _ & -> & _).
  apply not_true_is_false. intros E.
  apply existsb_exists in E as (p & Hp & E).
  apply List.filter_In in Hp as [Hp _].
  assert (existsb (fun p => Z.eqb (pid p) h) (table w) = true)
    by (apply existsb_exists; eauto).
  congruence.
Qed.

Lemma popen_terminate_dead (h : Z) (w : world) :
  alive h w = false -> popen_terminate h w = w.
Proof.
  unfold alive, popen_terminate. intros H.
  destruct (List.find (fun p => Z.eqb (pid p) h) (table w)) as [p|] eqn:E;
    [|reflexivity].
  apply List.find_some in E as [Hp E].
  assert (existsb (fun p => Z.eqb (pid p) h) (table w) = true)
    by (apply existsb_exists; eauto).
  congruence.
Qed.

Local Abbreviation cooled last w :=
  (if clock w - last <? RESTART_COOLDOWN
   then sleep (RESTART_COOLDOWN - (clock w - last)) w
   else w).

Local Abbreviation scanned project last w :=
  (kill_existing_process current_pid (local_path project) (cooled last w)).

Local Abbreviation handle_project :=
  (handle_project current_pid str_ child_reaction).

Local Abbreviation popen := (popen child_reaction).
Local Abbreviation command_of := (command_of str_).

(** The handling of a stopped slot, step by step. *)
Lemma handle_project_stopped (project : project) (st : slots) (w : world)
    (handle : option Z) (last : Z) :
  processes st !! name project = Some handle ->
  last_restart_time st !! name project = Some last ->
  stopped handle w = true ->
  handle_project project st w
  = Return (Slots (<[name project := Some (next_pid (scanned project last w))]>
                     (processes st))
                  (<[name project := clock (scanned project last w)]>
                     (last_restart_time st)),
            snd (popen (command_of project) (scanned project last w))).
Proof.
  intros Hh Hl Hs. unfold Supervisor.handle_project.
  rewrite Hh, Hs, Hl.
  assert (Hw3 : match handle with
                | Some h => popen_terminate h (scanned project last w)
                | None => scanned project last w
                end = scanned project last w).
  { destruct handle as [h|]; [|reflexivity].
    apply popen_terminate_dead, scan_keeps_dead.
    cbn in Hs. apply negb_true_iff in Hs.
    destruct (clock w - last <? RESTART_COOLDOWN); exact Hs. }
  cbv zeta. rewrite Hw3. reflexivity.
Qed.

Lemma cooled_effect (last : Z) (w : world) :
  table (cooled last w) = table w /\
  next_pid (cooled last w) = next_pid w /\
  exists evs, log (cooled last w) = (log w ++ evs)%list /\
              forallb quiet evs = true /\
              (clock w - last < RESTART_COOLDOWN ->
               evs = [(clock w, EvSleep (RESTART_COOLDOWN - (clock w - last)))]
               /\ clock (cooled last w) = last + RESTART_COOLDOWN) /\
              (RESTART_COOLDOWN <= clock w - last ->
               evs = [] /\ clock (cooled last w) = clock w).
Proof.
  destruct (Z.ltb_spec (clock w - last) RESTART_COOLDOWN) as [H|H]; cbn.
  - repeat split. eexists. repeat split; intros; try lia.
  - repeat split. exists []. rewrite app_nil_r. repeat split; intros; lia.
Qed.

Lemma spawned_references (project : project) (child : Z) (r : behaviour) :
  references (basename (local_path project))
    (Process child (command_of project) r) = true.
Proof.
  unfold references, Supervisor.command_of. cbn [cmdline existsb].
  rewrite contains_basename. apply orb_true_iff. right. reflexivity.
Qed.

(** C8 (as amended): within the handling of a stopped slot, every
    request for termination made by the scan precedes the spawn, which
    is the last entry logged; every matching process other than the
    supervisor that permits termination has been asked to terminate;
    and right after the respawn the processes that reference the launch
    target are the new child together with the matching processes the
    scan spares (the supervisor itself, and those that deny access): the
    child alone when there are none of these. *)
Theorem respawn_after_scan (project : project) (st : slots) (w : world)
    (handle : option Z) (last : Z) :
  processes st !! name project = Some handle ->
  last_restart_time st !! name project = Some last ->
  stopped handle w = true ->
  NoDup (List.map pid (table w)) ->
  exists st' w' before child,
    handle_project project st w = Return (st', w') /\
    log w' = (log w ++ before
                ++ [(clock w', EvSpawn child (command_of project))])%list /\
    forallb quiet before = true /\
    (forall p, In p (table w) ->
               doomed (basename (local_path project)) p = true ->
               In (EvTerminate (pid p)) (List.map snd before)) /\
    processes st' !! name project = Some (Some child) /\
    List.filter (references (basename (local_path project))) (table w')
    = (List.filter (spared (basename (local_path project))) (table w)
         ++ [Process child (command_of project)
               (child_reaction (command_of project))])%list /\
    (List.filter (spared (basename (local_path project))) (table w) = [] ->
     instances (local_path project) w' = 1%nat).
Proof.
  intros Hh Hl Hs Hnd.
  destruct (cooled_effect last w) as (Ht1 & Hn1 & evs1 & Hl1 & Hq1 & _).
  destruct (kill_fold_effect (basename (local_path project))
              (table (cooled last w)) (cooled last w))
    as (Hn2 & Hc2 & _ & evs2 & Hl2 & Hq2 & Hin2).
  fold (kill_existing_process current_pid (local_path project) (cooled last w))
    in Hn2, Hc2, Hl2.
  assert (Hsp : List.filter (references (basename (local_path project)))
                  (table (scanned project last w))
                = List.filter (spared (basename (local_path project))) (table w)).
  { rewrite scan_leaves_spared by (rewrite Ht1; exact Hnd). now rewrite Ht1. }
  assert (Hfin : List.filter (references (basename (local_path project)))
                   (table (snd (popen (command_of project)
                                  (scanned project last w))))
                 = (List.filter (spared (basename (local_path project))) (table w)
                      ++ [Process (next_pid (scanned project last w))
                            (command_of project)
                            (child_reaction (command_of project))])%list).
  { cbn [Supervisor.popen snd record table].
    rewrite List.filter_app, Hsp. cbn [List.filter].
    now rewrite spawned_references. }
  eexists _, _, (evs1 ++ evs2)%list, (next_pid (scanned project last w)).
  split; [apply (handle_project_stopped project st w handle last Hh Hl Hs)|].
  repeat split.
  - cbn [Supervisor.popen snd record log clock]. rewrite Hl2, Hl1.
    now rewrite <- !app_assoc.
  - now rewrite forallb_app, Hq1, Hq2.
  - intros p Hp Hd. rewrite List.map_app. apply in_or_app. right.
    apply Hin2; [now rewrite Ht1 | exact Hd].
  - cbn [processes]. apply lookup_insert_eq.
  - exact Hfin.
  - intros Hnone. unfold instances. rewrite Hfin, Hnone. reflexivity.
Qed.

Local Abbreviation reboot_command := (reboot_command str_ child_reaction).

Lemma reboot_command_found (PROJECTS : list project) (project : project)
    (w : world) :
  List.find (fun p => String.eqb (name p) (name project)) PROJECTS
    = Some project ->
  reboot_command PROJECTS (name project) w
  = (Restarted (name project),
     World (clock w)
           (table w ++ [Process (next_pid w) (command_of project)
                          (child_reaction (command_of project))])
           (next_pid w + 1)
           (log w ++ [(clock w, EvSpawn (next_pid w) (command_of project))])).
Proof. intros H. unfold Supervisor.reboot_command. rewrite H. reflexivity. Qed.

(** C7: a stopped slot whose last restart is less than
    [RESTART_COOLDOWN] = 30 seconds old is handled by first sleeping the
    remaining time, inside the loop; the spawn is the last entry logged,
    it happens no earlier than 30 seconds after the last restart, and
    the slot's last restart time becomes the clock read after the spawn.
    [reboot_command] for the same project spawns at once, whatever the
    last restart time. *)
Theorem cooldown_wait_before_respawn (PROJECTS : list project)
    (project : project) (st : slots) (w : world) (handle : option Z)
    (last : Z) :
  processes st !! name project = Some handle ->
  last_restart_time st !! name project = Some last ->
  stopped handle w = true ->
  clock w - last < RESTART_COOLDOWN ->
  List.find (fun p => String.eqb (name p) (name project)) PROJECTS
    = Some project ->
  (exists st' w' between child,
     handle_project project st w = Return (st', w') /\
     log w' = (log w
                 ++ (clock w, EvSleep (RESTART_COOLDOWN - (clock w - last)))
                 :: between
                 ++ [(clock w', EvSpawn child (command_of project))])%list /\
     forallb quiet between = true /\
     last + RESTART_COOLDOWN <= clock w' /\
     last_restart_time st' !! name project = Some (clock w')) /\
  (exists w'',
     reboot_command PROJECTS (name project) w
       = (Restarted (name project), w'') /\
     log w'' = (log w ++ [(clock w, EvSpawn (next_pid w) (command_of project))])%list /\
     clock w'' = clock w).
Proof.
  intros Hh Hl Hs Hcool Hfind. split.
  - destruct (cooled_effect last w) as (Ht1 & Hn1 & evs1 & Hl1 & Hq1 & Hwait & _).
    destruct (Hwait Hcool) as [-> Hc1].
    destruct (kill_fold_effect (basename (local_path project))
                (table (cooled last w)) (cooled last w))
      as (Hn2 & Hc2 & _ & evs2 & Hl2 & Hq2 & _).
    fold (kill_existing_process current_pid (local_path project) (cooled last w))
      in Hn2, Hc2, Hl2.
    eexists _, _, evs2, (next_pid (scanned project last w)).
    split; [apply (handle_project_stopped project st w handle last Hh Hl Hs)|].
    repeat split.
    + cbn [Supervisor.popen snd record log clock]. rewrite Hl2, Hl1.
      now rewrite <- !app_assoc.
    + exact Hq2.
    + cbn [Supervisor.popen snd record clock]. lia.
    + cbn [last_restart_time Supervisor.popen snd record clock].
      apply lookup_insert_eq.
  - eexists. split; [apply (reboot_command_found _ _ _ Hfind)|].
    split; reflexivity.
Qed.

(** C2, on the code: [reboot_command] only starts a process.  Called
    twice for one project it stops nothing and leaves two more live
    processes that reference the launch target. *)
Theorem reboot_command_only_spawns (PROJECTS : list project)
    (project : project) (w : world) :
  List.find (fun p => String.eqb (name p) (name project)) PROJECTS
    = Some project ->
  exists w1 w2,
    reboot_command PROJECTS (name project) w = (Restarted (name project), w1) /\
    reboot_command PROJECTS (name project) w1 = (Restarted (name project), w2) /\
    table w2
    = (table w
         ++ [Process (next_pid w) (command_of project)
               (child_reaction (command_of project));
             Process (next_pid w + 1) (command_of project)
               (child_reaction (command_of project))])%list /\
    instances (local_path project) w2
    = (instances (local_path project) w + 2)%nat /\
    log w2
    = (log w ++ [(clock w, EvSpawn (next_pid w) (command_of project));
                 (clock w, EvSpawn (next_pid w + 1) (command_of project))])%list.
Proof.
  intros Hfind. eexists _, _.
  split; [apply (reboot_command_found _ _ _ Hfind)|].
  split; [apply (reboot_command_found _ _ _ Hfind)|].
  cbn [table log clock next_pid]. repeat split.
  - now rewrite <- app_assoc.
  - unfold instances. cbn [table].
    rewrite !List.filter_app, !length_app. cbn [List.filter].
    rewrite !spawned_references. cbn. lia.
  - now rewrite <- app_assoc.
Qed.

End MonitorFacts.

Lemma respawn_after_scan_witness :
  exists st' w',
    handle_project 1 no_str exits worker (initial_slots [worker]) world_running
      = Return (st', w') /\
    instances "/srv/worker.py" w' = 1%nat.
Proof.
  destruct (respawn_after_scan 1 no_str exits worker (initial_slots [worker])
              world_running None 0)
    as (st' & w' & before & child & Hr & _ & _ & _ & _ & _ & Hone).
  - vm_compute. reflexivity.
  - vm_compute. reflexivity.
  - reflexivity.
  - cbn. apply NoDup_singleton.
  - exists st', w'. split; [exact Hr|]. apply Hone. vm_compute. reflexivity.
Defined.

(** C8 (as stated) fails: when the running instance belongs to another
    user, its termination is refused, the refusal is ignored, and after
    the respawn two processes reference the launch target. *)
Lemma refused_duplicate_survives :
  ~ exactly_one_after_respawn 1 no_str exits worker (initial_slots [worker])
      world_foreign.
Proof.
  intros H. destruct (H None) as (st' & w' & Hr & Hone).
  - vm_compute. reflexivity.
  - reflexivity.
  - vm_compute in Hr. injection Hr as _ <-. vm_compute in Hone. discriminate.
Qed.

Lemma cooldown_wait_before_respawn_witness :
  exists st' w',
    handle_project 1 no_str exits worker slots_recent world_empty
      = Return (st', w') /\
    990 + RESTART_COOLDOWN <= clock w' /\
    last_restart_time st' !! "worker" = Some (clock w').
Proof.
  destruct (cooldown_wait_before_respawn 1 no_str exits [worker] worker
              slots_recent world_empty (Some 100) 990)
    as [(st' & w' & between & child & Hr & _ & _ & Hc & Hl) _].
  - vm_compute. reflexivity.
  - vm_compute. reflexivity.
  - reflexivity.
  - vm_compute. reflexivity.
  - reflexivity.
  - exists st', w'. repeat split; assumption.
Defined.

Lemma reboot_command_only_spawns_witness :
  exists w1 w2,
    reboot_command no_str exits [worker] "worker" world_running
      = (Restarted "worker", w1) /\
    reboot_command no_str exits [worker] "worker" w1
      = (Restarted "worker", w2) /\
    instances "/srv/worker.py" w2 = 3%nat.
Proof.
  destruct (reboot_command_only_spawns no_str exits [worker] worker
              world_running eq_refl)
    as (w1 & w2 & H1 & H2 & _ & Hi & _).
  exists w1, w2. repeat split; assumption.
Defined.

End SupervisorFacts.

(** ** Facts about argument resolution *)

Module ResolverFacts.
Import Py Resolver PyFacts.

Lemma one_line_app (a b : string) :
  one_line (a ++ b) = one_line a && one_line b.
Proof.
  induction a as [|c a IH]; [reflexivity|].
  rewrite append_cons. cbn [one_line]. rewrite IH. apply andb_assoc.
Qed.

Lemma one_line_escape_char (c : ascii) : one_line (escape_char c) = true.
Proof. destruct c as [[] [] [] [] [] [] [] []]; reflexivity. Qed.

Lemma one_line_escape (s : string) : one_line (escape s) = true.
Proof.
  induction s as [|c s IH]; [reflexivity|]. cbn [escape].
  now rewrite one_line_app, one_line_escape_char, IH.
Qed.

Lemma one_line_basestring (s : string) : one_line (encode_basestring s) = true.
Proof.
  unfold encode_basestring. cbn [one_line].
  now rewrite one_line_app, one_line_escape.
Qed.

Lemma one_line_uint (d : Decimal.uint) :
  one_line (NilEmpty.string_of_uint d) = true.
Proof. induction d; cbn; auto. Qed.

Lemma one_line_str_int (n : Z) : one_line (str_int n) = true.
Proof.
  unfold str_int, NilZero.string_of_int, NilZero.string_of_uint.
  destruct (Z.to_int n) as [d|d]; destruct d; cbn; auto using one_line_uint.
Qed.

Lemma one_line_concat (sep : string) (l : list string) :
  one_line sep = true -> Forall (fun s => one_line s = true) l ->
  one_line (String.concat sep l) = true.
Proof.
  intros Hsep H. induction H as [|s l Hs Hl IH]; [reflexivity|].
  cbn [String.concat]. destruct l as [|t l]; [exact Hs|].
  rewrite !one_line_app, Hs, Hsep. exact IH.
Qed.

Lemma one_line_wrap (a x b : string) :
  one_line a = true -> one_line x = true -> one_line b = true ->
  one_line (a ++ x ++ b) = true.
Proof. intros Ha Hx Hb. now rewrite !one_line_app, Ha, Hx, Hb. Qed.

(** Induction over a JSON value and the values nested in it. *)
Lemma json_nested_ind (P : json -> Prop) :
  P JNull -> (forall b, P (JBool b)) -> (forall n, P (JInt n)) ->
  (forall lit, P (JFloat lit)) -> (forall s, P (JStr s)) ->
  (forall l, Forall P l -> P (JList l)) ->
  (forall d, Forall (fun kv => P (snd kv)) d -> P (JDict d)) ->
  forall j, P j.
Proof.
  intros Hnull Hbool Hint Hfloat Hstr Hlist Hdict.
  fix IH 1. intros [ | b | n | lit | s | l | d].
  - exact Hnull.
  - apply Hbool.
  - apply Hint.
  - apply Hfloat.
  - apply Hstr.
  - apply Hlist. induction l as [|x l IHl]; constructor; [apply IH | exact IHl].
  - apply Hdict.
    induction d as [|[k v] d IHd]; constructor; [apply IH | exact IHd].
Qed.

Lemma json_dumps_one_line (j : json) :
  floats_one_line j = true -> one_line (json_dumps j) = true.
Proof.
  induction j as [ | [|] | n | lit | s | l IH | d IH] using json_nested_ind;
    intros Hf; try reflexivity.
  - apply one_line_str_int.
  - exact Hf.
  - apply one_line_basestring.
  - cbn [json_dumps]. apply one_line_wrap; try reflexivity.
    apply one_line_concat; [reflexivity|].
    cbn [floats_one_line] in Hf. apply List.Forall_forall. intros t Ht.
    apply List.in_map_iff in Ht as (x & <- & Hx).
    rewrite List.Forall_forall in IH. apply IH; [exact Hx|].
    rewrite forallb_forall in Hf. now apply Hf.
  - cbn [json_dumps]. apply one_line_wrap; try reflexivity.
    apply one_line_concat; [reflexivity|].
    cbn [floats_one_line] in Hf. apply List.Forall_forall. intros t Ht.
    apply List.in_map_iff in Ht as ([k v] & <- & Hx).
    apply one_line_wrap; [apply one_line_basestring | reflexivity |].
    rewrite List.Forall_forall in IH. apply (IH (k, v)); [exact Hx|].
    rewrite forallb_forall in Hf. now apply (Hf (k, v)).
Qed.

Lemma assoc_app (name : string) (a b : namespace) :
  assoc name (a ++ b)
  = match assoc name a with Some v => Some v | None => assoc name b end.
Proof.
  induction a as [|[k v] a IH]; [reflexivity|]. cbn.
  destruct (String.eqb k name); [reflexivity | exact IH].
Qed.

Lemma assoc_unbound (name : string) (ns : namespace) :
  ~ In name (List.map fst ns) -> assoc name ns = None.
Proof.
  induction ns as [|[k v] ns IH]; [reflexivity|]. cbn. intros H.
  destruct (String.eqb_spec k name) as [->|_]; [tauto|].
  apply IH. tauto.
Qed.

Lemma loop_globals_names (project : dict) (arg : json) (value : option pyval)
    (name : string) :
  In name (List.map fst (loop_globals project arg value)) ->
  In name loop_variables.
Proof. destruct value; cbn; tauto. Qed.

Lemma resolve_str (globals : namespace) (project : dict) (name : string) :
  resolve globals project (JStr name) = Return (priority globals project name).
Proof.
  unfold resolve, priority.
  destruct (lookup name project); [reflexivity|].
  destruct (assoc name globals); reflexivity.
Qed.

Lemma priority_outside_loop (static : namespace) (project : dict)
    (arg : json) (value : option pyval) (name : string) :
  ~ In name loop_variables ->
  priority (loop_globals project arg value ++ static) project name
  = priority static project name.
Proof.
  intros H. unfold priority. rewrite assoc_app.
  now rewrite (assoc_unbound name (loop_globals project arg value))
    by (intros Hin; apply H; eapply loop_globals_names, Hin).
Qed.

Lemma encode_serialisable (v : pyval) :
  serialisable v = true ->
  exists w, encode v = Return w /\ serialisable w = true.
Proof.
  destruct v as [j|n|n [text|e]]; try discriminate; intros _; cbn; eauto.
Qed.

Lemma assoc_loop_globals (project : dict) (arg : json) (value : option pyval)
    (name : string) (v : pyval) :
  (forall w, value = Some w -> serialisable w = true) ->
  assoc name (loop_globals project arg value) = Some v ->
  serialisable v = true.
Proof.
  intros Hv. unfold loop_globals. cbn [app assoc].
  repeat (destruct (String.eqb _ name); [now intros [= <-]|]).
  destruct value as [w|]; cbn [assoc]; [|discriminate].
  destruct (String.eqb _ name); [|discriminate].
  intros [= <-]. now apply Hv.
Qed.

Lemma priority_serialisable (static : namespace) (project : dict)
    (arg : json) (value : option pyval) (name : string) :
  (forall v, assoc name static = Some v -> serialisable v = true) ->
  (forall w, value = Some w -> serialisable w = true) ->
  serialisable (priority (loop_globals project arg value ++ static)
                  project name) = true.
Proof.
  intros Hs Hv. unfold priority.
  destruct (lookup name project); [reflexivity|]. rewrite assoc_app.
  destruct (assoc name (loop_globals project arg value)) as [v|] eqn:E.
  - eapply assoc_loop_globals; eauto.
  - destruct (assoc name static) as [v|]; [now apply Hs | reflexivity].
Qed.

(** The inner loop on a list of string tokens, none of which resolves
    to a mapping [json.dumps] rejects. *)
Lemma resolve_tokens_strings (static : namespace) (project : dict)
    (names : list string) (value : option pyval) :
  (forall name v, In name names -> assoc name static = Some v ->
                  serialisable v = true) ->
  (forall w, value = Some w -> serialisable w = true) ->
  exists new_args value',
    resolve_tokens static project (List.map JStr names) value
      = Return (new_args, value') /\
    length new_args = length names /\
    forall (i : nat) (name : string),
      names !! i = Some name -> ~ In name loop_variables ->
      exists arg, new_args !! i = Some arg /\
                  encode (priority static project name) = Return arg.
Proof.
  revert value. induction names as [|n names IH]; intros value Hs Hv.
  - exists [], value. repeat split. intros i name H. discriminate.
  - cbn [List.map resolve_tokens]. rewrite resolve_str. cbn [bind].
    destruct (encode_serialisable
                (priority (loop_globals project (JStr n) value ++ static)
                   project n)) as (w & Hw & Hws).
    { apply priority_serialisable; [|exact Hv].
      intros v. apply Hs. now left. }
    rewrite Hw. cbn [bind].
    destruct (IH (Some w)) as (rest & value' & -> & Hlen & Hrest).
    { intros name v Hin. apply Hs. now right. }
    { now intros w' [= <-]. }
    cbn [bind fst snd]. eexists _, _. split; [reflexivity|]. split.
    + cbn. now rewrite Hlen.
    + intros [|i] name Hi Hout.
      * injection Hi as ->. exists w. split; [reflexivity|].
        now rewrite <- (priority_outside_loop static project (JStr name)
                          value name Hout).
      * apply (Hrest i name Hi Hout).
Qed.

(** A token that resolves to a mapping [json.dumps] rejects stops the
    loop with the exception of [json.dumps]. *)
Lemma resolve_tokens_rejected (static : namespace) (project : dict)
    (name dict_name : string) (e : exn) (rest : list json)
    (value : option pyval) :
  ~ In name loop_variables ->
  lookup name project = None ->
  assoc name static = Some (VDict dict_name (Raise e)) ->
  resolve_tokens static project (JStr name :: rest) value = Raise e.
Proof.
  intros Hout Hp Hs. cbn [resolve_tokens]. rewrite resolve_str.
  rewrite (priority_outside_loop static project (JStr name) value name Hout).
  unfold priority. now rewrite Hp, Hs.
Qed.

Lemma config_globals_shape (config : dict) (raw PROJECTS : list dict)
    (cfg : namespace) :
  config_globals config raw PROJECTS = Return cfg ->
  exists guild token authorized,
    lookup "GUILD_ID" config = Some guild /\
    lookup "TOKEN" config = Some token /\
    lookup "AUTHORIZED_LIST" config = Some authorized /\
    cfg = ([("config", VJson (JDict config));
            ("CHECK_INTERVAL",
             VJson (dict_get "CHECK_INTERVAL" (JInt 60) config));
            ("GUILD_ID", VJson guild);
            ("TOKEN", VJson token);
            ("AUTHORIZED_LIST", VJson authorized);
            ("PROJECTS", VObject "PROJECTS")]
           ++ last_binding "p" raw ++ last_binding "proj" PROJECTS)%list.
Proof.
  unfold config_globals, subscript.
  destruct (lookup "GUILD_ID" config) as [guild|]; [|discriminate].
  destruct (lookup "TOKEN" config) as [token|]; [|discriminate].
  destruct (lookup "AUTHORIZED_LIST" config) as [authorized|]; [|discriminate].
  cbn [bind]. intros [= <-]. eauto 10.
Qed.

Lemma config_globals_names (config : dict) (raw PROJECTS : list dict)
    (cfg : namespace) (name : string) :
  config_globals config raw PROJECTS = Return cfg ->
  In name (List.map fst cfg) -> In name config_names.
Proof.
  intros Hcfg.
  destruct (config_globals_shape _ _ _ _ Hcfg) as (g & t & a & _ & _ & _ & ->).
  unfold last_binding, config_names.
  destruct (List.last (List.map Some raw) None),
           (List.last (List.map Some PROJECTS) None); cbn; tauto.
Qed.

Lemma config_globals_json (config : dict) (raw PROJECTS : list dict)
    (cfg : namespace) (name : string) (v : pyval) :
  config_globals config raw PROJECTS = Return cfg ->
  assoc name cfg = Some v -> serialisable v = true.
Proof.
  intros Hcfg.
  destruct (config_globals_shape _ _ _ _ Hcfg) as (g & t & a & _ & _ & _ & ->).
  unfold last_binding.
  destruct (List.last (List.map Some raw) None),
           (List.last (List.map Some PROJECTS) None); cbn [app assoc];
    repeat (destruct (String.eqb _ name); [now intros [= <-]|]);
    discriminate.
Qed.

Lemma config_binding (ambient : namespace) (config : dict)
    (raw PROJECTS : list dict) (cfg : namespace) (key : string) (v : json) :
  config_globals config raw PROJECTS = Return cfg ->
  In key ["GUILD_ID"; "TOKEN"; "AUTHORIZED_LIST"] ->
  lookup key config = Some v ->
  assoc key (cfg ++ ambient) = Some (VJson v).
Proof.
  intros Hcfg Hkey Hv.
  destruct (config_globals_shape _ _ _ _ Hcfg)
    as (g & t & a & Hg & Ht & Ha & ->).
  destruct Hkey as [<-|[<-|[<-|[]]]]; cbn; congruence.
Qed.

Lemma check_interval_binding (ambient : namespace) (config : dict)
    (raw PROJECTS : list dict) (cfg : namespace) :
  config_globals config raw PROJECTS = Return cfg ->
  assoc "CHECK_INTERVAL" (cfg ++ ambient)
  = Some (VJson (dict_get "CHECK_INTERVAL" (JInt 60) config)).
Proof.
  intros Hcfg.
  destruct (config_globals_shape _ _ _ _ Hcfg) as (g & t & a & _ & _ & _ & ->).
  reflexivity.
Qed.

(** C9 (as amended): for every token of a project's args that is not a
    variable of the resolution loop itself, the resolved value is the
    same-named field of the project if present, otherwise the value the
    module's global namespace binds to that name if any, otherwise the
    token itself.  That namespace is what the interpreter and the lines
    above bound, whatever it is, overridden by the names lines 117 to
    131 bind; of the configuration document these hold GUILD_ID, TOKEN,
    AUTHORIZED_LIST and CHECK_INTERVAL (60 when absent), so any other
    top-level field is found only if something else binds its name.  A
    resolved mapping is replaced by its [json.dumps] text, which holds
    no line break for a mapping read from the configuration; the loop
    ends normally when no token names a mapping [json.dumps] rejects,
    and a token that names one stops it with the exception of
    [json.dumps]. *)
Theorem resolve_args_priority (ambient : namespace) (config : dict)
    (raw PROJECTS : list dict) (cfg : namespace) (project : dict)
    (names : list string) (value : option pyval) :
  config_globals config raw PROJECTS = Return cfg ->
  (forall name v, In name names -> assoc name ambient = Some v ->
                  serialisable v = true) ->
  (forall w, value = Some w -> serialisable w = true) ->
  (exists new_args value',
     resolve_tokens (cfg ++ ambient) project (List.map JStr names) value
       = Return (new_args, value') /\
     length new_args = length names /\
     (forall (i : nat) (name : string),
         names !! i = Some name -> ~ In name loop_variables ->
         exists arg,
           new_args !! i = Some arg /\
           encode (priority (cfg ++ ambient) project name) = Return arg)) /\
  (forall key v,
      In key ["GUILD_ID"; "TOKEN"; "AUTHORIZED_LIST"] ->
      lookup key config = Some v ->
      assoc key (cfg ++ ambient) = Some (VJson v)) /\
  assoc "CHECK_INTERVAL" (cfg ++ ambient)
    = Some (VJson (dict_get "CHECK_INTERVAL" (JInt 60) config)) /\
  (forall name, ~ In name config_names ->
                assoc name (cfg ++ ambient) = assoc name ambient) /\
  (forall d, floats_one_line (JDict d) = true ->
             exists text, encode (VJson (JDict d)) = Return (VJson (JStr text))
                          /\ one_line text = true) /\
  (forall name dict_name e rest,
      ~ In name loop_variables -> ~ In name config_names ->
      lookup name project = None ->
      assoc name ambient = Some (VDict dict_name (Raise e)) ->
      resolve_tokens (cfg ++ ambient) project (JStr name :: rest) value
      = Raise e).
Proof.
  intros Hcfg Hser Hvalue.
  assert (Hframe : forall name, ~ In name config_names ->
                     assoc name (cfg ++ ambient) = assoc name ambient).
  { intros name Hout. rewrite assoc_app, assoc_unbound; [reflexivity|].
    intros Hin. apply Hout.
    apply (config_globals_names config raw PROJECTS cfg name Hcfg Hin). }
  split; [|split; [|split; [|split; [|split]]]].
  - apply resolve_tokens_strings; [|exact Hvalue].
    intros name v Hin. rewrite assoc_app.
    destruct (assoc name cfg) as [w|] eqn:E.
    + intros [= <-].
      apply (config_globals_json config raw PROJECTS cfg name w Hcfg E).
    + now apply Hser.
  - intros key v. apply (config_binding ambient config raw PROJECTS cfg key v Hcfg).
  - apply (check_interval_binding ambient config raw PROJECTS cfg Hcfg).
  - exact Hframe.
  - intros d Hd. eexists. split; [reflexivity|].
    now apply json_dumps_one_line.
  - intros name dict_name e rest Hloop Hout Hp Ha.
    apply (resolve_tokens_rejected _ _ name dict_name); try assumption.
    now rewrite Hframe.
Qed.

Lemma resolve_args_priority_witness :
  (exists new_args value',
     resolve_tokens (sample_globals ++ object_globals) project_sample
       (List.map JStr ["opts"; "GUILD_ID"; "REGION"; "__annotations__"]) None
       = Return (new_args, value') /\
     new_args !! 1%nat = Some (VJson (JInt 123)) /\
     new_args !! 2%nat = Some (VJson (JStr "REGION")) /\
     new_args !! 3%nat = Some (VJson (JStr "{}"))) /\
  resolve_tokens (sample_globals ++ imported_globals) project_sample
    [JStr "__builtins__"] None = Raise TypeError.
Proof.
  split.
  - destruct (resolve_args_priority object_globals doc_region [project_sample]
                [project_sample] sample_globals project_sample
                ["opts"; "GUILD_ID"; "REGION"; "__annotations__"] None eq_refl)
      as ((new_args & value' & Hr & _ & Hprio) & _).
    + intros name v [<-|[<-|[<-|[<-|[]]]]] H; vm_compute in H;
        try discriminate; now injection H as <-.
    + discriminate.
    + exists new_args, value'. split; [exact Hr|].
      split; [|split].
      * destruct (Hprio 1%nat "GUILD_ID" eq_refl) as (arg & -> & Ha);
          [cbn; intuition discriminate|].
        vm_compute in Ha. congruence.
      * destruct (Hprio 2%nat "REGION" eq_refl) as (arg & -> & Ha);
          [cbn; intuition discriminate|].
        vm_compute in Ha. congruence.
      * destruct (Hprio 3%nat "__annotations__" eq_refl) as (arg & -> & Ha);
          [cbn; intuition discriminate|].
        vm_compute in Ha. congruence.
  - destruct (resolve_args_priority imported_globals doc_region
                [project_sample] [project_sample] sample_globals
                project_sample [] None eq_refl) as (_ & _ & _ & _ & _ & H).
    + intros name v [].
    + discriminate.
    + apply (H "__builtins__" "__builtins__" TypeError []);
        try reflexivity; cbn; intuition discriminate.
Defined.

(** C9 (as stated) fails: the document has a top-level field REGION and
    the project names REGION in its args; the configuration document is
    not consulted, REGION is no module global, and the argument stays
    the token itself instead of the configured value. *)
Lemma config_field_not_resolved : ~ startup_follows_spec "/srv" doc_region.
Proof.
  intros (projects & Hs & Hargs).
  vm_compute in Hs. injection Hs as <-.
  vm_compute in Hargs. discriminate.
Qed.

End ResolverFacts.

(** ** Further facts about the configuration store *)

Module ConfigExtras.
Import Py Config Restore PyFacts ConfigFacts.

Section StoreExtras.

Variable SCRIPT_DIR : string.

Local Abbreviation primary := (CONFIG_PATH SCRIPT_DIR).
Local Abbreviation safe := (CONFIG_SAFE_BACKUP_PATH SCRIPT_DIR).
Local Abbreviation bak := (CONFIG_BACKUP_PATH SCRIPT_DIR).
Local Abbreviation tmp := (temp_path SCRIPT_DIR).
Local Abbreviation load := (load_config_safely SCRIPT_DIR).

Lemma try_backup_cases (dk : disk) (path : string) :
  try_backup SCRIPT_DIR path dk
  = match valid_document dk path with
    | Some config =>
        if encodable config then
          (Disk (<[primary := Json config]> (files dk))
                (ops dk ++ [OpWrite primary (Json config)]),
           Return (Some config))
        else
          (Disk (<[primary := Truncated config]> (files dk))
                (ops dk ++ [OpWrite primary (Truncated config)]), Return None)
    | None => (dk, Return None)
    end.
Proof.
  destruct (valid_document dk path) as [config|] eqn:Hv.
  - destruct (encodable config) eqn:He.
    + apply (try_backup_valid SCRIPT_DIR dk path config Hv He).
    + apply (try_backup_unencodable SCRIPT_DIR dk path config Hv He).
  - apply (try_backup_invalid SCRIPT_DIR dk path Hv).
Qed.

(** Whatever the walk over the backups returns has been validated and
    written in full to the primary file. *)
Lemma restore_from_success (backups : list string) (dk dk' : disk)
    (config : json) :
  restore_from SCRIPT_DIR backups dk = (dk', Return config) ->
  (exists msg, validate_config config = Return (true, msg)) /\
  encodable config = true /\
  files dk' !! primary = Some (Json config).
Proof.
  revert dk. induction backups as [|path rest IH]; intros dk; [discriminate|].
  rewrite (restore_from_cons SCRIPT_DIR), try_backup_cases.
  destruct (valid_document dk path) as [c|] eqn:Hv; [|apply IH].
  destruct (encodable c) eqn:He; [|apply IH].
  intros [= <- <-]. split; [|split].
  - apply (valid_document_validates dk path c Hv).
  - exact He.
  - apply lookup_insert_eq.
Qed.

Lemma load_success (dk dk' : disk) (config : json) :
  load dk = (dk', Return config) ->
  (exists msg, validate_config config = Return (true, msg)) /\
  encodable config = true /\
  files dk' !! primary = Some (Json config).
Proof.
  destruct (valid_document dk primary) as [c|] eqn:Hp.
  - destruct (encodable c) eqn:He.
    + unfold load_config_safely, try_except.
      rewrite (load_primary_valid SCRIPT_DIR dk c Hp He).
      intros [= <- <-]. split; [|split].
      * apply (valid_document_validates dk primary c Hp).
      * exact He.
      * cbn [files]. rewrite lookup_insert_ne by apply safe_ne_primary.
        apply (valid_document_json dk primary c Hp).
    + unfold load_config_safely, try_except.
      rewrite (load_primary_unencodable SCRIPT_DIR dk c Hp He).
      apply restore_from_success.
  - rewrite (load_invalid_primary SCRIPT_DIR dk Hp).
    apply restore_from_success.
Qed.

(** A document [load_config_safely] returns has passed
    [validate_config], and the primary file holds it afterwards. *)
Theorem load_returns_valid_primary (dk dk' : disk) (config : json) :
  load dk = (dk', Return config) ->
  (exists msg, validate_config config = Return (true, msg)) /\
  files dk' !! primary = Some (Json config).
Proof. intros H. destruct (load_success dk dk' config H) as (? & _ & ?). auto. Qed.

(** Loading again after a successful load returns the same document by
    the primary path: its one file operation is the write of [.safe],
    and afterwards the primary file and [.safe] both hold the document. *)
Theorem load_again_returns_same (dk dk' : disk) (config : json) :
  load dk = (dk', Return config) ->
  load dk'
  = (Disk (<[safe := Json config]> (files dk'))
          (ops dk' ++ [OpWrite safe (Json config)]), Return config) /\
  files (fst (load dk')) !! primary = Some (Json config) /\
  files (fst (load dk')) !! safe = Some (Json config).
Proof.
  intros H. destruct (load_success dk dk' config H) as ([msg Hm] & He & Hf).
  pose proof (valid_document_of_json dk' primary config msg Hf Hm) as Hv.
  unfold load_config_safely, try_except.
  rewrite (load_primary_valid SCRIPT_DIR dk' config Hv He).
  cbn [fst files]. repeat split.
  - rewrite lookup_insert_ne by apply safe_ne_primary. exact Hf.
  - apply lookup_insert_eq.
Qed.

Ltac run_command :=
  unfold set_config_command, parse_upload, backup_current, try_except,
    io_bind, write_file, read_file, os_remove, os_replace, exists_, lift, ret,
    raise, json_load;
  cbv beta iota; cbn [files ops].

Ltac step := cbv beta iota; cbn [files ops negb].

Ltac paths :=
  first [ apply safe_ne_primary | apply bak_ne_primary | apply tmp_ne_primary
        | apply safe_ne_bak | apply tmp_ne_safe | apply tmp_ne_bak
        | intros E; symmetry in E; revert E;
          first [ apply safe_ne_primary | apply bak_ne_primary
                | apply tmp_ne_primary | apply safe_ne_bak | apply tmp_ne_safe
                | apply tmp_ne_bak ]
        | congruence ].

Ltac lookups :=
  repeat first
    [ rewrite lookup_insert_eq
    | rewrite lookup_delete_eq
    | rewrite lookup_insert_ne by paths
    | rewrite lookup_delete_ne by paths ].

(** The run of [set_config_command] on an upload that validates. *)
Lemma set_config_accepted (file : content) (dk : disk) (new_config : json) :
  accepted file = Some new_config ->
  set_config_command SCRIPT_DIR file dk
  = match files dk !! primary with
    | Some Undecodable =>
        (Disk (delete tmp (<[tmp := file]> (files dk)))
              (ops dk ++ [OpWrite tmp file; OpRemove tmp]),
         Return (ErrorOccurred UnicodeDecodeError))
    | Some old =>
        (Disk (<[primary := file]>
                 (delete tmp
                    (<[bak := old]>
                       (delete primary
                          (<[safe := old]> (<[tmp := file]> (files dk)))))))
              (ops dk ++ [OpWrite tmp file; OpWrite safe old;
                          OpReplace primary bak; OpReplace tmp primary]),
         Return Updated)
    | None =>
        (Disk (<[primary := file]> (delete tmp (<[tmp := file]> (files dk))))
              (ops dk ++ [OpWrite tmp file; OpReplace tmp primary]),
         Return Updated)
    end.
Proof.
  intros Hacc. destruct (accepted_json file new_config Hacc) as [-> [m V]].
  run_command. rewrite lookup_insert_eq. step. rewrite V. step.
  rewrite (lookup_insert_ne _ tmp primary) by apply tmp_ne_primary.
  destruct (files dk !! primary) as [old|] eqn:Hold.
  - rewrite bool_decide_eq_true_2 by eauto. step.
    rewrite (lookup_insert_ne _ tmp primary) by apply tmp_ne_primary.
    rewrite Hold.
    destruct old as [j|t| |j]; step;
      try (rewrite (lookup_insert_ne _ safe primary) by apply safe_ne_primary;
           rewrite (lookup_insert_ne _ tmp primary) by apply tmp_ne_primary;
           rewrite Hold; step; lookups; step;
           rewrite <- !app_assoc; reflexivity).
    rewrite lookup_insert_eq. rewrite bool_decide_eq_true_2 by eauto. step.
    rewrite lookup_insert_eq. rewrite <- !app_assoc. reflexivity.
  - rewrite bool_decide_eq_false_2 by (intros [c Hc]; discriminate). step.
    rewrite lookup_insert_eq. step.
    rewrite <- !app_assoc. reflexivity.
Qed.

(** An accepted upload replaces an existing primary file that can be
    read as text: the new document becomes the primary file, the
    previous content is kept both in [.safe] and in [.bak], the
    temporary file is gone and no other file changes.  A primary file
    that is not UTF-8 cannot be copied to [.safe]: the command answers
    with the decoding error, removes the temporary file, and the primary
    file and every other file stay as they were. *)
Theorem set_config_keeps_previous (file old : content) (dk : disk)
    (new_config : json) :
  accepted file = Some new_config ->
  files dk !! primary = Some old ->
  (old <> Undecodable ->
   snd (set_config_command SCRIPT_DIR file dk) = Return Updated /\
   ops (fst (set_config_command SCRIPT_DIR file dk))
   = (ops dk ++ [OpWrite tmp file; OpWrite safe old;
                 OpReplace primary bak; OpReplace tmp primary])%list /\
   files (fst (set_config_command SCRIPT_DIR file dk)) !! primary = Some file /\
   files (fst (set_config_command SCRIPT_DIR file dk)) !! safe = Some old /\
   files (fst (set_config_command SCRIPT_DIR file dk)) !! bak = Some old /\
   files (fst (set_config_command SCRIPT_DIR file dk)) !! tmp = None /\
   (forall path, path <> primary -> path <> safe -> path <> bak ->
                 path <> tmp ->
      files (fst (set_config_command SCRIPT_DIR file dk)) !! path
      = files dk !! path)) /\
  (old = Undecodable ->
   snd (set_config_command SCRIPT_DIR file dk)
   = Return (ErrorOccurred UnicodeDecodeError) /\
   ops (fst (set_config_command SCRIPT_DIR file dk))
   = (ops dk ++ [OpWrite tmp file; OpRemove tmp])%list /\
   files (fst (set_config_command SCRIPT_DIR file dk)) !! tmp = None /\
   (forall path, path <> tmp ->
      files (fst (set_config_command SCRIPT_DIR file dk)) !! path
      = files dk !! path)).
Proof.
  intros Hacc Hold. rewrite (set_config_accepted file dk new_config Hacc), Hold.
  split.
  - intros Hdec. destruct old as [j|t| |j]; [| |contradiction|];
      cbn [fst snd files ops]; repeat split; lookups; try reflexivity;
      intros path H1 H2 H3 H4; lookups; reflexivity.
  - intros ->. cbn [fst snd files ops]. repeat split; lookups; try reflexivity.
    intros path H1. lookups. reflexivity.
Qed.

(** An accepted upload when there is no primary file: the document
    becomes the primary file and no backup is written. *)
Theorem set_config_first_install (file : content) (dk : disk)
    (new_config : json) :
  accepted file = Some new_config ->
  files dk !! primary = None ->
  snd (set_config_command SCRIPT_DIR file dk) = Return Updated /\
  ops (fst (set_config_command SCRIPT_DIR file dk))
  = (ops dk ++ [OpWrite tmp file; OpReplace tmp primary])%list /\
  files (fst (set_config_command SCRIPT_DIR file dk)) !! primary = Some file /\
  files (fst (set_config_command SCRIPT_DIR file dk)) !! tmp = None /\
  (forall path, path <> primary -> path <> tmp ->
     files (fst (set_config_command SCRIPT_DIR file dk)) !! path
     = files dk !! path).
Proof.
  intros Hacc Hold. rewrite (set_config_accepted file dk new_config Hacc), Hold.
  cbn [fst snd files ops]. repeat split; lookups; try reflexivity.
  intros path H1 H2. lookups. reflexivity.
Qed.

(** The files after an accepted upload over a primary file that can be
    read as text, or over none. *)
Lemma set_config_installed (file : content) (dk : disk) (new_config : json) :
  accepted file = Some new_config ->
  files dk !! primary <> Some Undecodable ->
  files (fst (set_config_command SCRIPT_DIR file dk)) !! primary
  = Some (Json new_config) /\
  files (fst (set_config_command SCRIPT_DIR file dk)) !! bak
  = match files dk !! primary with
    | Some old => Some old
    | None => files dk !! bak
    end.
Proof.
  intros Hacc Hdec. rewrite (set_config_accepted file dk new_config Hacc).
  destruct (accepted_json file new_config Hacc) as [-> _].
  destruct (files dk !! primary) as [[j|t| |j]|]; try contradiction;
    cbn [fst files]; split; lookups; reflexivity.
Qed.

(** Round trip: after an accepted upload whose document holds no lone
    surrogate, over a primary file that can be read as text or over
    none, loading returns the uploaded document; that load overwrites
    [.safe], so afterwards the primary file and [.safe] hold the new
    document and only [.bak] keeps the previous content.  When the
    document holds a lone surrogate, the load cannot write it to
    [.safe] and falls back on [.bak]: a previous configuration that
    validates and holds no lone surrogate is returned and written over
    the upload. *)
Theorem replace_then_load (file : content) (dk : disk) (new_config : json) :
  accepted file = Some new_config ->
  files dk !! primary <> Some Undecodable ->
  (encodable new_config = true ->
   snd (load (fst (set_config_command SCRIPT_DIR file dk)))
   = Return new_config /\
   files (fst (load (fst (set_config_command SCRIPT_DIR file dk)))) !! primary
   = Some (Json new_config) /\
   files (fst (load (fst (set_config_command SCRIPT_DIR file dk)))) !! safe
   = Some (Json new_config) /\
   (forall old, files dk !! primary = Some old ->
      files (fst (load (fst (set_config_command SCRIPT_DIR file dk)))) !! bak
      = Some old)) /\
  (encodable new_config = false ->
   forall previous,
     valid_document dk primary = Some previous ->
     encodable previous = true ->
     snd (load (fst (set_config_command SCRIPT_DIR file dk)))
     = Return previous /\
     files (fst (load (fst (set_config_command SCRIPT_DIR file dk)))) !! primary
     = Some (Json previous) /\
     files (fst (load (fst (set_config_command SCRIPT_DIR file dk)))) !! safe
     = Some (Truncated new_config)).
Proof.
  intros Hacc Hdec.
  destruct (set_config_installed file dk new_config Hacc Hdec) as [Hp Hb].
  destruct (accepted_json file new_config Hacc) as [_ [msg Hm]].
  pose proof (valid_document_of_json _ primary new_config msg Hp Hm) as Hv.
  split; intros He.
  - unfold load_config_safely, try_except.
    rewrite (load_primary_valid SCRIPT_DIR _ new_config Hv He).
    cbn [fst snd files]. repeat split.
    + lookups. exact Hp.
    + lookups. reflexivity.
    + intros old Hold. lookups. now rewrite Hb, Hold.
  - intros previous Hprev Heprev.
    pose proof (valid_document_json dk primary previous Hprev) as Hf.
    destruct (valid_document_validates dk primary previous Hprev) as [m' Hm'].
    assert (Hvb : valid_document (fst (set_config_command SCRIPT_DIR file dk))
                    bak = Some previous).
    { apply (valid_document_of_json _ bak previous m'); [|exact Hm'].
      now rewrite Hb, Hf. }
    rewrite (load_unencodable_primary SCRIPT_DIR _ new_config Hv He).
    rewrite Hvb, Heprev. cbn [fst snd files]. repeat split; lookups; reflexivity.
Qed.

Local Abbreviation restore := (restore_callback SCRIPT_DIR).

Ltac run_restore :=
  unfold restore_callback, try_except, load_json, dump_json, io_bind,
    read_file, write_file, lift, ret, raise, json_load;
  cbv beta iota; cbn [files ops].

(** The restore button of a backup that is missing, does not parse or
    does not validate performs no file operation and does not answer
    that it restored. *)
Theorem restore_invalid_changes_nothing (path : string) (dk : disk) :
  valid_document dk path = None ->
  exists r, restore path dk = (dk, Return r) /\ r <> Restored.
Proof.
  unfold valid_document, accepted. run_restore.
  destruct (files dk !! path) as [[j|t| |j]|]; step;
    try (intros _; eexists; split; [reflexivity | discriminate]).
  destruct (validate_config j) as [[[|] m]|e]; try discriminate; step;
    intros _; eexists; split; try reflexivity; discriminate.
Qed.

(** The restore button of a backup that validates and holds no lone
    surrogate overwrites the primary file with it, touches nothing else,
    and the next load returns that document.  A backup that validates
    but holds a lone surrogate is not restored: the overwrite fails
    half-way, the primary file is left cut short and the button answers
    with the encoding error. *)
Theorem restore_then_load (path : string) (dk : disk) (config : json) :
  valid_document dk path = Some config ->
  (encodable config = true ->
   restore path dk
   = (Disk (<[primary := Json config]> (files dk))
           (ops dk ++ [OpWrite primary (Json config)]), Return Restored) /\
   snd (load (fst (restore path dk))) = Return config) /\
  (encodable config = false ->
   restore path dk
   = (Disk (<[primary := Truncated config]> (files dk))
           (ops dk ++ [OpWrite primary (Truncated config)]),
      Return (RestoreError UnicodeEncodeError))).
Proof.
  intros Hv.
  pose proof (valid_document_json dk path config Hv) as Hf.
  destruct (valid_document_validates dk path config Hv) as [msg Hm].
  split; intros He.
  - assert (Hr : restore path dk
                 = (Disk (<[primary := Json config]> (files dk))
                         (ops dk ++ [OpWrite primary (Json config)]),
                    Return Restored)).
    { run_restore. rewrite Hf. step. rewrite Hm. step. rewrite He.
      reflexivity. }
    split; [exact Hr|]. rewrite Hr. cbn [fst].
    unfold load_config_safely, try_except.
    rewrite (load_primary_valid SCRIPT_DIR _ config); [reflexivity| |exact He].
    apply (valid_document_of_json _ primary config msg); [|exact Hm].
    cbn [files]. apply lookup_insert_eq.
  - run_restore. rewrite Hf. step. rewrite Hm. step. rewrite He.
    reflexivity.
Qed.

End StoreExtras.

Lemma check_required_total (keys : list string) (c : json) :
  (forall key, exists b, py_in key c = Return b) ->
  check_required keys c = Return None \/
  exists key, In key keys /\
              check_required keys c = Return (Some (msg_missing key)).
Proof.
  intros Hin. induction keys as [|k keys IH]; [now left|].
  cbn [check_required]. destruct (Hin k) as [[|] ->]; cbn [bind].
  - destruct IH as [IH | (key & Hk & IH)]; [now left|].
    right. exists key. split; [now right | exact IH].
  - right. exists k. split; [now left | reflexivity].
Qed.

(** A JSON value that is not an object is never accepted:
    [validate_config] either raises [TypeError] or reports one of the
    required keys as missing. *)
Theorem validate_config_non_object (doc : json) :
  isinstance_dict doc = false ->
  validate_config doc = Raise TypeError \/
  exists key, In key required_keys /\
              validate_config doc = Return (false, msg_missing key).
Proof.
  intros Hd. unfold validate_config.
  destruct doc as [ | b | n | lit | s | l | d]; try discriminate;
    try (left; reflexivity).
  - destruct (check_required_total required_keys (JStr s)) as [-> | (k & Hk & ->)];
      [intros key; eexists; reflexivity | now left | right; eauto].
  - destruct (check_required_total required_keys (JList l)) as [-> | (k & Hk & ->)];
      [intros key; eexists; reflexivity | now left | right; eauto].
Qed.

Lemma validate_config_non_object_witness :
  validate_config (JList [JStr "GUILD_ID"]) = Raise TypeError \/
  exists key, In key required_keys /\
    validate_config (JList [JStr "GUILD_ID"]) = Return (false, msg_missing key).
Proof. apply validate_config_non_object. reflexivity. Defined.

(** Validation looks at the four required keys only: two objects that
    agree on them get the same verdict, whatever else they hold and in
    whatever order. *)
Theorem validate_config_reads_required_keys (d d' : dict) :
  (forall key, In key required_keys -> lookup key d = lookup key d') ->
  validate_config (JDict d) = validate_config (JDict d').
Proof.
  intros H. unfold validate_config, required_keys in *.
  cbn [check_required py_in subscript]. unfold has_key.
  rewrite (H "GUILD_ID"), (H "TOKEN"), (H "AUTHORIZED_LIST"), (H "PROJECTS");
    cbn; auto 6.
Qed.

Lemma validate_config_reads_required_keys_witness :
  validate_config (JDict (("note", JStr "x") :: example_doc))
  = validate_config (JDict example_doc).
Proof.
  apply validate_config_reads_required_keys.
  intros key [<-|[<-|[<-|[<-|[]]]]]; reflexivity.
Defined.

Lemma load_returns_valid_primary_witness :
  (exists msg, validate_config (JDict example_doc) = Return (true, msg)) /\
  files (fst (load_config_safely "/srv" (disk_only_bak "/srv")))
    !! CONFIG_PATH "/srv" = Some (Json (JDict example_doc)).
Proof.
  apply (load_returns_valid_primary "/srv" (disk_only_bak "/srv")).
  vm_compute. reflexivity.
Defined.

Lemma load_again_returns_same_witness :
  snd (load_config_safely "/srv"
         (fst (load_config_safely "/srv" (disk_only_bak "/srv"))))
  = Return (JDict example_doc).
Proof.
  destruct (load_again_returns_same "/srv" (disk_only_bak "/srv")
              (fst (load_config_safely "/srv" (disk_only_bak "/srv")))
              (JDict example_doc)) as [H _].
  - vm_compute. reflexivity.
  - now rewrite H.
Defined.

Lemma set_config_keeps_previous_witness :
  files (fst (set_config_command "/srv" (Json (JDict doc_empty_path))
                (disk_primary_ok "/srv")))
    !! CONFIG_BACKUP_PATH "/srv" = Some (Json (JDict example_doc)) /\
  snd (set_config_command "/srv" (Json (JDict doc_empty_path))
         (disk_undecodable "/srv"))
  = Return (ErrorOccurred UnicodeDecodeError).
Proof.
  split.
  - apply (set_config_keeps_previous "/srv" (Json (JDict doc_empty_path))
             (Json (JDict example_doc)) (disk_primary_ok "/srv")
             (JDict doc_empty_path));
      try (vm_compute; reflexivity); discriminate.
  - apply (set_config_keeps_previous "/srv" (Json (JDict doc_empty_path))
             Undecodable (disk_undecodable "/srv") (JDict doc_empty_path));
      vm_compute; reflexivity.
Defined.

Lemma set_config_first_install_witness :
  files (fst (set_config_command "/srv" (Json (JDict example_doc))
                (Disk ∅ [])))
    !! CONFIG_PATH "/srv" = Some (Json (JDict example_doc)).
Proof.
  apply (set_config_first_install "/srv" (Json (JDict example_doc))
           (Disk ∅ []) (JDict example_doc)); vm_compute; reflexivity.
Defined.

Lemma replace_then_load_witness :
  snd (load_config_safely "/srv"
         (fst (set_config_command "/srv" (Json (JDict doc_empty_path))
                 (disk_primary_ok "/srv"))))
  = Return (JDict doc_empty_path) /\
  snd (load_config_safely "/srv"
         (fst (set_config_command "/srv" (Json (JDict doc_surrogate))
                 (disk_primary_ok "/srv"))))
  = Return (JDict example_doc).
Proof.
  split.
  - destruct (replace_then_load "/srv" (Json (JDict doc_empty_path))
                (disk_primary_ok "/srv") (JDict doc_empty_path)) as [H _];
      [vm_compute; reflexivity | vm_compute; discriminate |].
    now destruct H as [Hr _]; [vm_compute; reflexivity|].
  - destruct (replace_then_load "/srv" (Json (JDict doc_surrogate))
                (disk_primary_ok "/srv") (JDict doc_surrogate)) as [_ H];
      [vm_compute; reflexivity | vm_compute; discriminate |].
    now destruct (H eq_refl (JDict example_doc)) as [Hr _];
      [vm_compute; reflexivity | vm_compute; reflexivity |].
Defined.

Lemma restore_invalid_changes_nothing_witness :
  exists r,
    restore_callback "/srv" (CONFIG_SAFE_BACKUP_PATH "/srv")
      (disk_all_bad "/srv") = (disk_all_bad "/srv", Return r)
    /\ r <> Restored.
Proof.
  apply (restore_invalid_changes_nothing "/srv").
  vm_compute. reflexivity.
Defined.

Lemma restore_then_load_witness :
  snd (load_config_safely "/srv"
         (fst (restore_callback "/srv" (CONFIG_BACKUP_PATH "/srv")
                 (disk_with_bak "/srv"))))
  = Return (JDict doc_empty_path) /\
  snd (restore_callback "/srv" (CONFIG_BACKUP_PATH "/srv")
         (disk_bak_surrogate "/srv"))
  = Return (RestoreError UnicodeEncodeError).
Proof.
  split.
  - apply (restore_then_load "/srv" (CONFIG_BACKUP_PATH "/srv")
             (disk_with_bak "/srv") (JDict doc_empty_path));
      vm_compute; reflexivity.
  - destruct (restore_then_load "/srv" (CONFIG_BACKUP_PATH "/srv")
                (disk_bak_surrogate "/srv") (JDict doc_surrogate)) as [_ H];
      [vm_compute; reflexivity|].
    now rewrite H by (vm_compute; reflexivity).
Defined.

End ConfigExtras.

(** ** Further facts about paths and slot names *)

Module PathExtras.
Import Py Resolver PyFacts.

Lemma append_assoc (a b c : string) : (a ++ b) ++ c = a ++ (b ++ c).
Proof.
  induction a as [|x a IH]; [reflexivity|].
  rewrite !append_cons. f_equal. exact IH.
Qed.

Lemma has_slash_app (a b : string) :
  has_slash (a ++ b) = has_slash a || has_slash b.
Proof.
  induction a as [|x a IH]; [reflexivity|].
  rewrite append_cons. cbn [has_slash]. rewrite IH. apply orb_assoc.
Qed.

Lemma basename_plain (p : string) : has_slash p = false -> basename p = p.
Proof.
  destruct p as [|c rest]; [reflexivity|]. cbn [has_slash basename].
  intros H. apply orb_false_iff in H as [Hc Hr]. now rewrite Hr, Hc.
Qed.

Lemma basename_no_slash (p : string) : has_slash (basename p) = false.
Proof.
  induction p as [|c rest IH]; [reflexivity|]. cbn [basename].
  destruct (has_slash rest) eqn:Hr; [exact IH|].
  destruct (is_slash c) eqn:Hc; [exact Hr|].
  cbn [has_slash]. now rewrite Hc, Hr.
Qed.

Lemma basename_after_slash (dir f : string) :
  basename (dir ++ "/" ++ f) = basename f.
Proof.
  induction dir as [|c dir IH].
  - change ("" ++ "/" ++ f) with (String "/" f). cbn [basename].
    destruct (has_slash f) eqn:Hf; [reflexivity|].
    cbn. symmetry. now apply basename_plain.
  - rewrite append_cons. cbn [basename].
    rewrite has_slash_app. change ("/" ++ f) with (String "/" f).
    cbn [has_slash]. cbn. rewrite orb_true_r. exact IH.
Qed.

Lemma ends_with_slash_split (a : string) :
  ends_with_slash a = true -> exists d, a = d ++ "/".
Proof.
  unfold ends_with_slash. induction a as [|c a IH]; [discriminate|].
  destruct a as [|c' a'].
  - cbn. intros H. exists EmptyString.
    unfold is_slash in H. apply Ascii.eqb_eq in H. now subst.
  - intros H. destruct IH as [d Hd].
    + cbn in H |- *. now rewrite Nat.sub_0_r in *.
    + exists (String c d). rewrite append_cons. now rewrite <- Hd.
Qed.

Lemma basename_join (dir path : string) :
  basename (os_path_join dir path) = basename path.
Proof.
  unfold os_path_join. destruct (os_path_isabs path); [reflexivity|].
  destruct (String.eqb_spec dir EmptyString) as [->|_]; [reflexivity|].
  cbn [orb]. destruct (ends_with_slash dir) eqn:E.
  - destruct (ends_with_slash_split dir E) as [d ->].
    rewrite append_assoc. apply basename_after_slash.
  - apply basename_after_slash.
Qed.

(** The name of a slot does not depend on the directory the relative
    [local_path] is joined to: the base name, and so the derived name,
    of the joined path are those of the path as configured. *)
Theorem name_ignores_script_dir (SCRIPT_DIR path : string) :
  basename (os_path_join SCRIPT_DIR path) = basename path /\
  derive_name (os_path_join SCRIPT_DIR path) = derive_name path.
Proof.
  split; [apply basename_join|]. unfold derive_name. now rewrite basename_join.
Qed.

(** Two projects whose files have the same name in different
    directories get the same slot name. *)
Theorem same_file_name_same_slot (dir1 dir2 file : string) :
  derive_name (dir1 ++ "/" ++ file) = derive_name (dir2 ++ "/" ++ file).
Proof. unfold derive_name. now rewrite !basename_after_slash. Qed.

(** [basename] cuts the path after its last slash: the path is a
    directory part followed by the base name, the base name holds no
    slash, and the directory part is empty when the path has no slash
    and ends with a slash otherwise. *)
Theorem basename_splits_path (p : string) :
  exists dir,
    p = dir ++ basename p /\
    has_slash (basename p) = false /\
    (if has_slash p then exists d, dir = d ++ "/" else dir = EmptyString).
Proof.
  induction p as [|c rest IH].
  - exists EmptyString. repeat split.
  - cbn [basename has_slash]. destruct (has_slash rest) eqn:Hr.
    + destruct IH as (dir & E & Hn & [d Hd]).
      exists (String c dir). rewrite orb_true_r. repeat split.
      * rewrite append_cons. now f_equal.
      * exact Hn.
      * exists (String c d). rewrite append_cons. now f_equal.
    + rewrite orb_false_r. destruct (is_slash c) eqn:Hc.
      * exists (String c EmptyString). repeat split; [exact Hr|].
        exists EmptyString. unfold is_slash in Hc.
        apply Ascii.eqb_eq in Hc. now subst.
      * exists EmptyString. repeat split. cbn [has_slash]. now rewrite Hc, Hr.
Qed.

Lemma rfind_dot_split (s : string) (i : nat) :
  rfind_dot s = Some i ->
  exists pre post,
    s = pre ++ String "." post /\
    String.substring 0 i s = pre /\
    rfind_dot post = None.
Proof.
  revert i. induction s as [|c rest IH]; intros i; [discriminate|].
  cbn [rfind_dot]. destruct (rfind_dot rest) as [j|] eqn:Hr.
  - intros [= <-]. destruct (IH j eq_refl) as (pre & post & E & Hs & Hp).
    exists (String c pre), post. rewrite append_cons. repeat split.
    + now f_equal.
    + cbn [String.substring]. now f_equal.
    + exact Hp.
  - destruct (Ascii.eqb_spec c ".") as [->|_]; [|discriminate].
    intros [= <-]. exists EmptyString, rest. repeat split. exact Hr.
Qed.

(** [splitext] cuts a file name before its last dot, unless only dots
    come before it: the name is the root followed by an extension that
    is empty or is one dot and a text without dots; and a non-empty file
    name never has an empty root. *)
Theorem splitext_root_splits (filename : string) :
  (exists ext,
     filename = splitext_root filename ++ ext /\
     (ext = EmptyString \/
      exists e, ext = String "." e /\ rfind_dot e = None)) /\
  (splitext_root filename = EmptyString -> filename = EmptyString).
Proof.
  unfold splitext_root. destruct (rfind_dot filename) as [i|] eqn:Hi.
  - destruct (rfind_dot_split filename i Hi) as (pre & post & E & Hs & Hp).
    rewrite Hs. destruct (all_dots pre) eqn:Hd.
    + split; [|auto]. exists EmptyString. rewrite append_nil_r. auto.
    + split.
      * exists (String "." post). split; [exact E | right; eauto].
      * intros ->. discriminate.
  - split; [|auto]. exists EmptyString. rewrite append_nil_r. auto.
Qed.

End PathExtras.

(** ** Further facts about start-up *)

Module ResolverExtras.
Import Py Resolver PyFacts PathExtras ResolverFacts.

Lemma lookup_dict_set_eq (key : string) (v : json) (d : dict) :
  lookup key (dict_set key v d) = Some v.
Proof.
  induction d as [|[k old] d IH]; cbn.
  - now rewrite String.eqb_refl.
  - destruct (String.eqb k key) eqn:E; cbn; now rewrite E.
Qed.

Lemma lookup_dict_set_ne (key other : string) (v : json) (d : dict) :
  other <> key -> lookup other (dict_set key v d) = lookup other d.
Proof.
  intros Hne. induction d as [|[k old] d IH]; cbn.
  - destruct (String.eqb_spec key other); [congruence | reflexivity].
  - destruct (String.eqb_spec k key) as [->|Hk]; cbn.
    + destruct (String.eqb_spec key other); [congruence | reflexivity].
    + destruct (String.eqb k other); [reflexivity | exact IH].
Qed.

Lemma keys_dict_set (key : string) (v old : json) (d : dict) :
  lookup key d = Some old ->
  List.map fst (dict_set key v d) = List.map fst d.
Proof.
  induction d as [|[k x] d IH]; cbn; [discriminate|].
  destruct (String.eqb k key); cbn; [reflexivity|].
  intros H. f_equal. now apply IH.
Qed.

Lemma isabs_join (dir path : string) :
  os_path_isabs dir = true -> os_path_isabs (os_path_join dir path) = true.
Proof.
  unfold os_path_join. intros Hd.
  destruct (os_path_isabs path) eqn:Hp; [exact Hp|].
  destruct dir as [|c dir]; [discriminate|].
  unfold os_path_isabs in *.
  assert (Hc : c = "/"%char).
  { unfold String.prefix in Hd. destruct (ascii_dec "/" c); congruence. }
  subst c. destruct (_ || _); rewrite append_cons.
  - apply (prefix_refl_app "/" (dir ++ path)).
  - apply (prefix_refl_app "/" (dir ++ "/" ++ path)).
Qed.

Lemma Forall2_compose {A B C} (R : A -> B -> Prop) (S : B -> C -> Prop)
    (T : A -> C -> Prop) (la : list A) (lb : list B) (lc : list C) :
  (forall a b c, R a b -> S b c -> T a c) ->
  Forall2 R la lb -> Forall2 S lb lc -> Forall2 T la lc.
Proof.
  intros H Hab. revert lc. induction Hab as [|a b la lb Hr _ IH]; intros lc Hbc;
    inversion Hbc; subst; constructor; eauto.
Qed.

Section StartupExtras.

Variable SCRIPT_DIR : string.
Variable ambient : namespace.

(** Making a project's path absolute changes nothing else: on success
    the entry is an object with a string [local_path]; the copy holds
    that path joined to the script directory (itself when already
    absolute), which is absolute whenever the script directory is; every
    other field and the order of the keys are kept. *)
Theorem absolutize_changes_only_local_path (p : json) (proj : dict) :
  absolutize SCRIPT_DIR p = Return proj ->
  exists fields path,
    p = JDict fields /\
    lookup "local_path" fields = Some (JStr path) /\
    lookup "local_path" proj = Some (JStr (os_path_join SCRIPT_DIR path)) /\
    (forall key, key <> "local_path" -> lookup key proj = lookup key fields) /\
    List.map fst proj = List.map fst fields /\
    (os_path_isabs SCRIPT_DIR = true ->
     os_path_isabs (os_path_join SCRIPT_DIR path) = true).
Proof.
  unfold absolutize. destruct p as [ | | | | | |fields]; try discriminate.
  destruct (lookup "local_path" fields) as [[ | | | |path| |]|] eqn:Hl;
    try discriminate.
  intros H. exists fields, path.
  split; [reflexivity|]. split; [exact Hl|].
  destruct (os_path_isabs path) eqn:Hp; injection H as <-.
  - unfold os_path_join. rewrite Hp. repeat split; auto.
  - repeat split.
    + apply lookup_dict_set_eq.
    + intros key Hk. now apply lookup_dict_set_ne.
    + apply (keys_dict_set _ _ _ _ Hl).
    + apply isabs_join.
Qed.

Lemma resolve_hashable (static : namespace) (project : dict) (arg : json)
    (value : option pyval) :
  isinstance_list arg || isinstance_dict arg = false ->
  (forall name v, assoc name static = Some v -> serialisable v = true) ->
  (forall w, value = Some w -> serialisable w = true) ->
  exists v,
    resolve (loop_globals project arg value ++ static) project arg = Return v
    /\ serialisable v = true.
Proof.
  intros Ha Hs Hv. destruct arg; try discriminate;
    try (cbn [resolve]; eauto; fail).
  rewrite resolve_str. eexists. split; [reflexivity|].
  apply priority_serialisable; [apply Hs | exact Hv].
Qed.

(** A token that is a list or a mapping cannot be looked up in the
    project.  When no global name is bound to a mapping [json.dumps]
    rejects, as in the file run as a script, the resolution of the args
    raises [TypeError] exactly when some token is one; otherwise it
    yields one argument per token. *)
Theorem unhashable_token_raises (static : namespace) (project : dict)
    (tokens : list json) (value : option pyval) :
  (forall name v, assoc name static = Some v -> serialisable v = true) ->
  (forall w, value = Some w -> serialisable w = true) ->
  if existsb (fun t => isinstance_list t || isinstance_dict t) tokens
  then resolve_tokens static project tokens value = Raise TypeError
  else exists new_args value',
         resolve_tokens static project tokens value
           = Return (new_args, value') /\
         length new_args = length tokens.
Proof.
  intros Hs. revert value. induction tokens as [|arg rest IH]; intros value Hv.
  - cbn. eauto.
  - cbn [existsb resolve_tokens].
    destruct (isinstance_list arg || isinstance_dict arg) eqn:Ha; cbn [orb].
    + destruct arg; try discriminate; reflexivity.
    + destruct (resolve_hashable static project arg value Ha Hs Hv)
        as (v & -> & Hser). cbn [bind].
      destruct (encode_serialisable v Hser) as (w & -> & Hw). cbn [bind].
      assert (Hw' : forall w', Some w = Some w' -> serialisable w' = true)
        by (now intros w' [= <-]).
      specialize (IH (Some w) Hw').
      destruct (existsb _ rest).
      * now rewrite IH.
      * destruct IH as (new_args & value' & -> & Hlen). cbn [bind fst snd].
        eexists _, _. split; [reflexivity|]. cbn. now rewrite Hlen.
Qed.

Lemma absolutize_all_each (ps : list json) (PROJECTS : list dict) :
  absolutize_all SCRIPT_DIR ps = Return PROJECTS ->
  Forall2 (fun p proj => absolutize SCRIPT_DIR p = Return proj) ps PROJECTS.
Proof.
  revert PROJECTS. induction ps as [|p ps IH]; intros PROJECTS; cbn.
  - intros [= <-]. constructor.
  - destruct (absolutize SCRIPT_DIR p) as [proj|e] eqn:Hp; [|discriminate].
    cbn [bind].
    destruct (absolutize_all SCRIPT_DIR ps) as [others|e]; [|discriminate].
    cbn [bind]. intros [= <-]. constructor; auto.
Qed.

Lemma absolutize_all_raises (ps : list json) (p : json) (e : exn) :
  In p ps -> absolutize SCRIPT_DIR p = Raise e ->
  exists e', absolutize_all SCRIPT_DIR ps = Raise e'.
Proof.
  induction ps as [|q ps IH]; [contradiction|]. intros [->|Hin] Hp; cbn.
  - rewrite Hp. cbn. eauto.
  - destruct (absolutize SCRIPT_DIR q); cbn; [|eauto].
    destruct (IH Hin Hp) as [e' ->]. cbn. eauto.
Qed.

Lemma resolve_all_each (static : namespace) (todo : list dict)
    (value : option pyval) (projects : list project) :
  resolve_all static todo value = Return projects ->
  Forall2 (fun proj done_ =>
             exists path,
               lookup "local_path" proj = Some (JStr path) /\
               local_path done_ = path /\
               name done_ = derive_name path /\
               (lookup "args" proj = None -> args done_ = []))
          todo projects.
Proof.
  revert value projects. induction todo as [|proj rest IH];
    intros value projects; cbn [resolve_all].
  - intros [= <-]. constructor.
  - destruct (resolve_project static proj value) as [r|e] eqn:Hr;
      [|discriminate]. cbn [bind].
    unfold finish.
    destruct (lookup "local_path" proj) as [[ | | | |path| |]|] eqn:Hl;
      try discriminate. cbn [bind].
    destruct (resolve_all static rest (snd r)) as [others|e] eqn:Ho;
      [|discriminate]. cbn [bind]. intros [= <-].
    constructor; [|eapply IH, Ho].
    exists path. split; [exact Hl|]. split; [reflexivity|].
    split; [reflexivity|]. cbn [args].
    intros Ha. unfold resolve_project in Hr. rewrite Ha in Hr.
    injection Hr as <-. reflexivity.
Qed.

(** Start-up keeps the projects in order, one for one: each configured
    entry is an object with a string [local_path], the project's path is
    that path joined to the script directory, its name is derived from
    the file name of the path as configured, and a project without
    [args] gets no arguments. *)
Theorem startup_keeps_projects (config : dict) (ps : list json)
    (projects : list project) :
  lookup "PROJECTS" config = Some (JList ps) ->
  startup SCRIPT_DIR ambient config = Return projects ->
  Forall2 (fun p done_ =>
             exists fields path,
               p = JDict fields /\
               lookup "local_path" fields = Some (JStr path) /\
               local_path done_ = os_path_join SCRIPT_DIR path /\
               name done_ = derive_name path /\
               (lookup "args" fields = None -> args done_ = []))
          ps projects.
Proof.
  intros Hps. unfold startup, subscript. rewrite Hps. cbn [bind iterate].
  destruct (absolutize_all SCRIPT_DIR ps) as [PROJECTS|e] eqn:Ha;
    [|discriminate]. cbn [bind].
  destruct (config_globals config (as_dicts ps) PROJECTS) as [cfg|e];
    [|discriminate]. cbn [bind]. intros Hr.
  apply absolutize_all_each in Ha. apply resolve_all_each in Hr.
  eapply Forall2_compose; [|exact Ha|exact Hr].
  intros p proj done_ Hp (path' & Hl' & Hpath & Hname & Hargs).
  cbv beta in Hp.
  unfold absolutize in Hp. destruct p as [ | | | | | |fields]; try discriminate.
  destruct (lookup "local_path" fields) as [[ | | | |path| |]|] eqn:Hl;
    try discriminate.
  exists fields, path. split; [reflexivity|]. split; [exact Hl|].
  destruct (os_path_isabs path) eqn:Habs; injection Hp as <-.
  - rewrite Hl in Hl'. injection Hl' as <-.
    unfold os_path_join. rewrite Habs. auto.
  - rewrite lookup_dict_set_eq in Hl'. injection Hl' as <-.
    repeat split; [exact Hpath | |].
    + rewrite Hname. unfold derive_name. now rewrite basename_join.
    + intros Hnoargs. apply Hargs.
      rewrite lookup_dict_set_ne by discriminate. exact Hnoargs.
Qed.

(** A project whose [local_path] is not a string passes
    [validate_config] but makes start-up raise. *)
Theorem non_string_local_path_stops_startup (config : dict) (ps : list json)
    (fields : dict) (v : json) :
  lookup "PROJECTS" config = Some (JList ps) ->
  In (JDict fields) ps ->
  lookup "local_path" fields = Some v ->
  isinstance_str v = false ->
  py_in "local_path" (JDict fields) = Return true /\
  exists e, startup SCRIPT_DIR ambient config = Raise e.
Proof.
  intros Hps Hin Hl Hv. split.
  - cbn. unfold has_key. now rewrite Hl.
  - assert (Hp : absolutize SCRIPT_DIR (JDict fields) = Raise TypeError).
    { unfold absolutize. rewrite Hl. destruct v; try reflexivity. discriminate. }
    destruct (absolutize_all_raises ps _ _ Hin Hp) as [e He].
    exists e. unfold startup, subscript. rewrite Hps. cbn [bind iterate].
    now rewrite He.
Qed.

End StartupExtras.

Lemma absolutize_changes_only_local_path_witness :
  exists fields path,
    JDict [("local_path", JStr "worker.py"); ("args", JList [])] = JDict fields /\
    lookup "local_path" [("local_path", JStr "/srv/worker.py"); ("args", JList [])]
    = Some (JStr (os_path_join "/srv" path)).
Proof.
  destruct (absolutize_changes_only_local_path "/srv"
              (JDict [("local_path", JStr "worker.py"); ("args", JList [])])
              [("local_path", JStr "/srv/worker.py"); ("args", JList [])]
              eq_refl)
    as (fields & path & H1 & _ & H3 & _).
  exists fields, path. split; assumption.
Defined.

(** No name of the file run as a script, nor any name bound from a
    configuration, is bound to a mapping [json.dumps] rejects. *)
Lemma script_globals_serialisable (config : dict) (raw PROJECTS : list dict)
    (cfg : namespace) (name : string) (v : pyval) :
  config_globals config raw PROJECTS = Return cfg ->
  assoc name (cfg ++ object_globals) = Some v -> serialisable v = true.
Proof.
  intros Hcfg. rewrite assoc_app.
  destruct (assoc name cfg) as [w|] eqn:E.
  - intros [= <-]. apply (config_globals_json _ _ _ _ _ _ Hcfg E).
  - unfold object_globals, plain_globals. cbn [assoc].
    repeat (destruct (String.eqb _ name); [now intros [= <-]|]).
    induction (interpreter_names ++ imported_names ++ defined_names)%list
      as [|n l IH]; [discriminate|].
    cbn [List.map assoc].
    destruct (String.eqb n name); [now intros [= <-] | exact IH].
Qed.

Lemma unhashable_token_raises_witness :
  resolve_tokens (sample_globals ++ object_globals) project_sample
    [JStr "opts"; JList [JStr "GUILD_ID"]] None = Raise TypeError /\
  exists new_args value',
    resolve_tokens (sample_globals ++ object_globals) project_sample
      [JStr "opts"; JInt 5] None = Return (new_args, value') /\
    length new_args = 2%nat.
Proof.
  split.
  - apply (unhashable_token_raises (sample_globals ++ object_globals)
             project_sample [JStr "opts"; JList [JStr "GUILD_ID"]] None).
    + intros name v.
      apply (script_globals_serialisable doc_region [project_sample]
               [project_sample] sample_globals name v eq_refl).
    + discriminate.
  - apply (unhashable_token_raises (sample_globals ++ object_globals)
             project_sample [JStr "opts"; JInt 5] None).
    + intros name v.
      apply (script_globals_serialisable doc_region [project_sample]
               [project_sample] sample_globals name v eq_refl).
    + discriminate.
Defined.

Lemma startup_keeps_projects_witness :
  Forall2 (fun p done_ =>
             exists fields path,
               p = JDict fields /\
               lookup "local_path" fields = Some (JStr path) /\
               local_path done_ = os_path_join "/srv" path /\
               name done_ = derive_name path /\
               (lookup "args" fields = None -> args done_ = []))
          [JDict [("local_path", JStr "worker.py")]]
          [Project "worker" "/srv/worker.py" []].
Proof.
  apply (startup_keeps_projects "/srv" object_globals Config.example_doc);
    reflexivity.
Defined.

Lemma non_string_local_path_stops_startup_witness :
  Config.validate_config
    (JDict [("GUILD_ID", JInt 1); ("TOKEN", JStr Config.token51);
            ("AUTHORIZED_LIST", JList []);
            ("PROJECTS", JList [JDict [("local_path", JInt 5)]])])
  = Return (true, "OK") /\
  exists e,
    startup "/srv" object_globals
      [("GUILD_ID", JInt 1); ("TOKEN", JStr Config.token51);
       ("AUTHORIZED_LIST", JList []);
       ("PROJECTS", JList [JDict [("local_path", JInt 5)]])]
    = Raise e.
Proof.
  split; [reflexivity|].
  apply (non_string_local_path_stops_startup "/srv" object_globals _
           [JDict [("local_path", JInt 5)]] [("local_path", JInt 5)] (JInt 5));
    try reflexivity.
  now left.
Defined.

End ResolverExtras.

(** ** Further facts about the supervisor *)

Module SupervisorExtras.
Import Py Resolver Supervisor Watch PyFacts SupervisorFacts.

Section MonitorExtras.

Variable current_pid : Z.
Variable str_ : pyval -> string.
Variable child_reaction : list string -> behaviour.

Local Abbreviation handle_project :=
  (handle_project current_pid str_ child_reaction).
Local Abbreviation handle_all := (handle_all current_pid str_ child_reaction).
Local Abbreviation poll_cycle := (poll_cycle current_pid str_ child_reaction).
Local Abbreviation scan := (kill_existing_process current_pid).
Local Abbreviation doomed := (doomed current_pid).

Lemma handle_project_running (project : project) (st : slots) (w : world)
    (h : Z) :
  processes st !! name project = Some (Some h) ->
  alive h w = true ->
  handle_project project st w = Return (st, w).
Proof.
  intros Hh Ha. unfold Supervisor.handle_project. rewrite Hh.
  cbn [stopped]. now rewrite Ha.
Qed.


(** Handling a project touches the bookkeeping of its own slot only:
    the handle and the last restart time of every other slot name are
    as before. *)
Theorem handle_project_other_slots (project : project) (st st' : slots)
    (w w' : world) :
  handle_project project st w = Return (st', w') ->
  forall slot, slot <> name project ->
    processes st' !! slot = processes st !! slot /\
    last_restart_time st' !! slot = last_restart_time st !! slot.
Proof.
  unfold Supervisor.handle_project.
  destruct (processes st !! name project) as [handle|]; [|discriminate].
  destruct (stopped handle w).
  - destruct (last_restart_time st !! name project) as [last|];
      [|discriminate].
    cbv zeta. destruct (Supervisor.popen _ _ _) as [child w4].
    intros [= <- <-] slot Hne. cbn [processes last_restart_time].
    split; apply lookup_insert_ne; congruence.
  - intros [= <- <-]. auto.
Qed.



Local Abbreviation kill_step := (kill_step current_pid).
Local Abbreviation popen := (popen child_reaction).
Local Abbreviation command_of := (command_of str_).

Local Abbreviation cooled last w :=
  (if clock w - last <? RESTART_COOLDOWN
   then sleep (RESTART_COOLDOWN - (clock w - last)) w
   else w).

Local Abbreviation scanned project last w :=
  (scan (local_path project) (cooled last w)).

(** The processes whose termination costs the grace period. *)
Local Abbreviation slow script_name :=
  (fun p => doomed script_name p && stubborn p).

Lemma doomed_cases (script_name : string) (p : process) :
  doomed script_name p = false <->
  pid p = current_pid \/ references script_name p = false \/ denies p = true.
Proof.
  unfold Supervisor.doomed.
  destruct (Z.eqb_spec (pid p) current_pid) as [E|E];
    destruct (references script_name p), (denies p); cbn; split; auto;
    intros [H | [H | H]]; congruence.
Qed.

(** With distinct process ids, the scan for a script leaves exactly the
    processes it does not stop: the supervisor itself, those whose
    command line does not mention the file name, and those that refuse
    the request; it creates no process. *)
Theorem scan_removes_exactly_doomed (script_path : string) (w : world) :
  NoDup (List.map pid (table w)) ->
  next_pid (scan script_path w) = next_pid w /\
  forall p,
    In p (table (scan script_path w)) <->
    In p (table w) /\
    (pid p = current_pid \/
     references (basename script_path) p = false \/
     denies p = true).
Proof.
  intros Hnd. split.
  - apply (kill_fold_effect current_pid (basename script_path) (table w) w).
  - intros p. rewrite (scan_table current_pid script_path w Hnd).
    rewrite List.filter_In, negb_true_iff, doomed_cases. reflexivity.
Qed.

Lemma references_empty (p : process) :
  references EmptyString p = negb (match cmdline p with [] => true | _ => false end).
Proof.
  unfold references. destruct (cmdline p) as [|a l]; [reflexivity|].
  cbn [existsb]. rewrite (contains_prefix EmptyString a); [reflexivity|].
  now destruct a.
Qed.

(** A launch target without a file name, the empty [local_path] joined
    to the script directory or any path that ends with a slash, makes
    the scan look for the empty string, which every argument contains:
    every process with a command line is stopped, except the supervisor
    and those that refuse. *)
Theorem scan_empty_basename (script_path : string) (w : world) :
  basename script_path = EmptyString ->
  NoDup (List.map pid (table w)) ->
  forall p,
    In p (table (scan script_path w)) <->
    In p (table w) /\
    (pid p = current_pid \/ cmdline p = [] \/ denies p = true).
Proof.
  intros Hb Hnd p. rewrite (scan_table current_pid script_path w Hnd).
  rewrite List.filter_In, negb_true_iff, doomed_cases, Hb, references_empty.
  destruct (cmdline p); cbn [negb]; split; intros [H1 [H | [H | H]]];
    split; auto; discriminate.
Qed.

Lemma kill_step_clock (script_name : string) (w : world) (p : process) :
  clock (kill_step script_name w p)
  = clock w + (if slow script_name p then 5 else 0).
Proof.
  unfold Supervisor.kill_step, Supervisor.doomed, stubborn, denies,
    terminate_wait_kill.
  destruct (Z.eqb (pid p) current_pid), (references script_name p),
    (reaction p); cbn; lia.
Qed.

Lemma kill_fold_clock (script_name : string) (l : list process) (w : world) :
  clock (List.fold_left (kill_step script_name) l w)
  = clock w + 5 * Z.of_nat (length (List.filter (slow script_name) l)).
Proof.
  revert w. induction l as [|a l IH]; intros w; cbn [List.fold_left List.filter].
  - cbn. lia.
  - rewrite IH, kill_step_clock.
    destruct (doomed script_name a && stubborn a); cbn [length]; lia.
Qed.

Lemma kill_step_requests (script_name : string) (w : world) (p : process) :
  exists evs, log (kill_step script_name w p) = (log w ++ evs)%list /\
              forallb is_request evs = true.
Proof.
  unfold Supervisor.kill_step, terminate_wait_kill.
  destruct (Z.eqb (pid p) current_pid);
    [exists []; now rewrite app_nil_r|].
  destruct (references script_name p);
    [|exists []; now rewrite app_nil_r].
  destruct (reaction p); cbn.
  - now eexists [_].
  - exists [(clock w, EvTerminate (pid p)); (clock w + 5, EvKill (pid p))].
    now rewrite <- app_assoc.
  - now eexists [_].
Qed.

Lemma kill_fold_requests (script_name : string) (l : list process) (w : world) :
  exists evs,
    log (List.fold_left (kill_step script_name) l w) = (log w ++ evs)%list /\
    forallb is_request evs = true.
Proof.
  revert w. induction l as [|a l IH]; intros w; cbn [List.fold_left].
  - exists []. now rewrite app_nil_r.
  - destruct (kill_step_requests script_name w a) as (evs & Hl & Hq).
    destruct (IH (kill_step script_name w a)) as (evs' & Hl' & Hq').
    exists (evs ++ evs')%list. rewrite Hl', Hl, app_assoc.
    now rewrite forallb_app, Hq, Hq'.
Qed.

(** The scan takes the grace period of five seconds once for every
    process it stops that ignores the terminate signal, and no other
    time. *)
Theorem scan_duration (script_path : string) (w : world) :
  clock (scan script_path w)
  = clock w
    + 5 * Z.of_nat (length (List.filter (slow (basename script_path))
                              (table w))).
Proof. apply kill_fold_clock. Qed.

(** A stopped slot whose last restart is at least [RESTART_COOLDOWN]
    seconds old, as at the first start, is respawned without sleeping:
    between the state found and the spawn the log holds only requests
    for termination, and the spawn happens five seconds later for every
    stopped process that ignores the terminate signal. *)
Theorem respawn_without_wait (project : project) (st : slots) (w : world)
    (handle : option Z) (last : Z) :
  processes st !! name project = Some handle ->
  last_restart_time st !! name project = Some last ->
  stopped handle w = true ->
  RESTART_COOLDOWN <= clock w - last ->
  exists st' w' requests child,
    handle_project project st w = Return (st', w') /\
    log w' = (log w ++ requests
                ++ [(clock w', EvSpawn child (command_of project))])%list /\
    forallb is_request requests = true /\
    clock w'
    = clock w
      + 5 * Z.of_nat (length (List.filter
                                (slow (basename (local_path project)))
                                (table w))) /\
    last_restart_time st' !! name project = Some (clock w').
Proof.
  intros Hh Hl Hs Hold.
  assert (Hc : cooled last w = w).
  { destruct (Z.ltb_spec (clock w - last) RESTART_COOLDOWN); [lia|reflexivity]. }
  destruct (kill_fold_requests (basename (local_path project)) (table w) w)
    as (evs & Hlog & Hq).
  fold (scan (local_path project) w) in Hlog.
  eexists _, _, evs, (next_pid (scanned project last w)).
  split; [apply (handle_project_stopped current_pid str_ child_reaction
                   project st w handle last Hh Hl Hs)|].
  rewrite Hc. cbn [Supervisor.popen snd record log clock last_restart_time].
  split; [now rewrite Hlog, <- app_assoc|].
  split; [exact Hq|].
  split; [apply kill_fold_clock | apply lookup_insert_eq].
Qed.


(** Handling a stopped project stops the running child of every other
    project whose launch path contains this project's file name, as
    [myworker.py] contains [worker.py]: that child is gone once the
    project is respawned, and its slot, untouched, is found stopped at
    its next handling. *)
Theorem respawn_stops_matching_project (project other : project)
    (st : slots) (w : world) (handle : option Z) (last h : Z) :
  processes st !! name project = Some handle ->
  last_restart_time st !! name project = Some last ->
  stopped handle w = true ->
  NoDup (List.map pid (table w)) ->
  In (Process h (command_of other) (child_reaction (command_of other)))
     (table w) ->
  h <> current_pid ->
  h <> next_pid w ->
  child_reaction (command_of other) <> DeniesAccess ->
  contains (basename (local_path project)) (local_path other) = true ->
  exists st' w',
    handle_project project st w = Return (st', w') /\
    alive h w' = false /\
    (name other <> name project ->
     processes st !! name other = Some (Some h) ->
     processes st' !! name other = Some (Some h) /\
     stopped (Some h) w' = true).
Proof.
  intros Hh Hl Hs Hnd Hin Hcur Hnext Hreact Hsub.
  set (q := Process h (command_of other) (child_reaction (command_of other))).
  assert (Hd : doomed (basename (local_path project)) q = true).
  { unfold q, Supervisor.doomed, references, denies, Supervisor.command_of.
    cbn [pid cmdline reaction existsb]. rewrite Hsub, orb_true_r.
    destruct (Z.eqb_spec h current_pid) as [E|_]; [contradiction|].
    fold (Supervisor.command_of str_ other).
    now destruct (child_reaction (command_of other)). }
  assert (Htab : table (cooled last w) = table w)
    by (destruct (clock w - last <? RESTART_COOLDOWN); reflexivity).
  assert (Hnp : next_pid (cooled last w) = next_pid w)
    by (destruct (clock w - last <? RESTART_COOLDOWN); reflexivity).
  assert (Hdead : alive h (snd (popen (command_of project)
                                  (scanned project last w))) = false).
  { unfold alive. cbn [Supervisor.popen snd record table].
    rewrite existsb_app. cbn [existsb pid]. rewrite orb_false_r.
    apply orb_false_iff. split.
    - apply not_true_is_false. intros E.
      apply existsb_exists in E as (p & Hp & E). apply Z.eqb_eq in E.
      rewrite scan_table in Hp by (rewrite Htab; exact Hnd).
      apply List.filter_In in Hp as [Hp Hnot]. rewrite Htab in Hp.
      rewrite (same_pid_same_process _ p q Hnd Hp Hin E) in Hnot.
      rewrite Hd in Hnot. discriminate.
    - apply Z.eqb_neq.
      destruct (kill_fold_effect current_pid (basename (local_path project))
                  (table (cooled last w)) (cooled last w)) as (Hn & _).
      fold (scan (local_path project) (cooled last w)) in Hn.
      rewrite Hn, Hnp. congruence. }
  eexists _, _.
  split; [apply (handle_project_stopped current_pid str_ child_reaction
                   project st w handle last Hh Hl Hs)|].
  split; [exact Hdead|].
  intros Hne Hslot. split.
  - cbn [processes]. rewrite lookup_insert_ne by congruence. exact Hslot.
  - cbn [stopped]. now rewrite Hdead.
Qed.

Lemma initial_slots_covers (PROJECTS : list project) :
  covers PROJECTS (initial_slots PROJECTS).
Proof.
  unfold covers, initial_slots. cbn [processes last_restart_time].
  induction PROJECTS as [|a l IH]; intros p Hp; [destruct Hp|].
  cbn [List.map]. rewrite !list_to_map_cons. cbn [fst snd].
  rewrite !lookup_insert_is_Some.
  destruct (decide (name a = name p)) as [E|E]; [now split; left|].
  destruct Hp as [-> | Hp]; [contradiction|].
  destruct (IH p Hp). split; right; split; assumption.
Qed.

Lemma handle_project_covers (PROJECTS : list project) (project : project)
    (st : slots) (w : world) :
  covers PROJECTS st -> In project PROJECTS ->
  exists st' w',
    handle_project project st w = Return (st', w') /\ covers PROJECTS st'.
Proof.
  intros Hc Hin. destruct (Hc project Hin) as [[handle Hh] [last Hl]].
  unfold Supervisor.handle_project. rewrite Hh, Hl.
  destruct (stopped handle w); [|eexists _, _; split; [reflexivity|exact Hc]].
  cbv zeta. destruct (Supervisor.popen _ _ _) as [child w4].
  eexists _, _. split; [reflexivity|].
  intros p Hp. cbn [processes last_restart_time].
  rewrite !lookup_insert_is_Some.
  destruct (decide (name project = name p)) as [E|E]; [now split; left|].
  destruct (Hc p Hp). split; right; split; assumption.
Qed.

Lemma handle_all_covers (PROJECTS todo : list project) (st : slots)
    (w : world) :
  covers PROJECTS st -> (forall p, In p todo -> In p PROJECTS) ->
  exists st' w',
    handle_all todo st w = Return (st', w') /\ covers PROJECTS st'.
Proof.
  revert st w. induction todo as [|a l IH]; intros st w Hc Hsub.
  - eexists _, _. split; [reflexivity|exact Hc].
  - destruct (handle_project_covers PROJECTS a st w Hc (Hsub a (or_introl eq_refl)))
      as (st1 & w1 & Hr & Hc1).
    cbn [Supervisor.handle_all]. rewrite Hr. cbn [bind fst snd].
    apply IH; [exact Hc1|]. intros p Hp. apply Hsub. now right.
Qed.

Lemma run_cycles_covers (PROJECTS : list project) (CHECK_INTERVAL : Z)
    (cycles : nat) (st : slots) (w : world) :
  covers PROJECTS st ->
  exists st' w',
    run_cycles current_pid str_ child_reaction PROJECTS CHECK_INTERVAL
      cycles st w = Return (st', w') /\
    covers PROJECTS st'.
Proof.
  revert st w. induction cycles as [|k IH]; intros st w Hc.
  - eexists _, _. split; [reflexivity|exact Hc].
  - destruct (handle_all_covers PROJECTS PROJECTS st w Hc (fun _ H => H))
      as (st1 & w1 & Hr & Hc1).
    cbn [run_cycles]. unfold Supervisor.poll_cycle. rewrite Hr.
    cbn [bind fst snd]. apply IH. exact Hc1.
Qed.


Lemma popen_terminate_incl (h : Z) (w : world) (q : process) :
  In q (table (popen_terminate h w)) -> In q (table w).
Proof.
  unfold popen_terminate.
  destruct (List.find (fun p => Z.eqb (pid p) h) (table w)) as [p|];
    [|exact (fun H => H)].
  destruct (terminate_wait_kill_effect p w) as (_ & _ & -> & _).
  destruct (denies p); [exact (fun H => H)|].
  intros H. now apply List.filter_In in H.
Qed.

Lemma popen_terminate_stops (h : Z) (w : world) :
  (forall p, In p (table w) -> pid p = h -> denies p = false) ->
  alive h (popen_terminate h w) = false.
Proof.
  intros Hperm. unfold popen_terminate.
  destruct (List.find (fun p => Z.eqb (pid p) h) (table w)) as [p|] eqn:E.
  - apply List.find_some in E as [Hp E]. apply Z.eqb_eq in E.
    destruct (terminate_wait_kill_effect p w) as (_ & _ & Ht & _).
    rewrite (Hperm p Hp E) in Ht. unfold alive. rewrite Ht, E.
    apply not_true_is_false. intros H.
    apply existsb_exists in H as (q & Hq & H).
    apply List.filter_In in Hq as [_ Hq]. now rewrite H in Hq.
  - unfold alive. apply not_true_is_false. intros H.
    apply existsb_exists in H as (q & Hq & H).
    now rewrite (List.find_none _ _ E q Hq) in H.
Qed.

Lemma stop_fold_incl (st : slots) (l : list string) (w : world) (q : process) :
  In q (table (List.fold_left (stop_step st) l w)) -> In q (table w).
Proof.
  revert w. induction l as [|a l IH]; intros w; cbn [List.fold_left];
    [exact (fun H => H)|].
  intros H. apply IH in H. unfold stop_step in H.
  destruct (processes st !! a) as [[h|]|]; [|exact H..].
  now apply popen_terminate_incl in H.
Qed.

Lemma dead_stays_dead (st : slots) (l : list string) (w : world) (h : Z) :
  alive h w = false -> alive h (List.fold_left (stop_step st) l w) = false.
Proof.
  unfold alive. intros Hd. apply not_true_is_false. intros H.
  apply existsb_exists in H as (q & Hq & H). apply stop_fold_incl in Hq.
  assert (existsb (fun p => Z.eqb (pid p) h) (table w) = true)
    by (apply existsb_exists; eauto).
  congruence.
Qed.

Lemma stop_fold_stops (st : slots) (l : list string) (w : world)
    (slot : string) (h : Z) :
  In slot l ->
  processes st !! slot = Some (Some h) ->
  (forall p, In p (table w) -> pid p = h -> denies p = false) ->
  alive h (List.fold_left (stop_step st) l w) = false.
Proof.
  revert w. induction l as [|a l IH]; intros w Hin Hslot Hperm;
    [destruct Hin|].
  cbn [List.fold_left].
  destruct (string_dec a slot) as [->|Hne].
  - apply dead_stays_dead. unfold stop_step. rewrite Hslot.
    now apply popen_terminate_stops.
  - destruct Hin as [E|Hin]; [contradiction|].
    apply IH; [exact Hin | exact Hslot |].
    intros p Hp. apply Hperm. unfold stop_step in Hp.
    destruct (processes st !! a) as [[h'|]|]; [|exact Hp..].
    now apply popen_terminate_incl in Hp.
Qed.

Lemma first_occurrences_all (seen names : list string) (n : string) :
  In n names -> In n seen \/ In n (first_occurrences seen names).
Proof.
  revert seen. induction names as [|a l IH]; intros seen Hin; [destruct Hin|].
  cbn [first_occurrences].
  destruct (existsb (String.eqb a) seen) eqn:E.
  - destruct Hin as [<- | Hin]; [|now apply IH].
    left. apply existsb_exists in E as (x & Hx & E).
    apply String.eqb_eq in E. now subst.
  - destruct Hin as [<- | Hin]; [right; now left|].
    destruct (IH (a :: seen) Hin) as [[<- | H] | H].
    + right. now left.
    + now left.
    + right. now right.
Qed.

(** The final clean-up stops what the slots hold: after it, the handle
    of any project's slot is no longer alive, provided the process
    behind it does not refuse termination. *)
Theorem stop_all_stops_handles (PROJECTS : list project) (st : slots)
    (w : world) (project : project) (h : Z) :
  In project PROJECTS ->
  processes st !! name project = Some (Some h) ->
  (forall p, In p (table w) -> pid p = h -> denies p = false) ->
  alive h (stop_all PROJECTS st w) = false.
Proof.
  intros Hin Hslot Hperm. unfold stop_all.
  apply (stop_fold_stops st _ w (name project) h); [|exact Hslot|exact Hperm].
  destruct (first_occurrences_all [] (List.map name PROJECTS) (name project))
    as [[]|H]; [|exact H].
  now apply in_map.
Qed.

End MonitorExtras.


Lemma handle_project_other_slots_witness :
  exists st' w',
    handle_project 1 no_str exits worker slots_pair world_pair
      = Return (st', w') /\
    processes st' !! "myworker" = Some (Some 100) /\
    last_restart_time st' !! "myworker" = Some 1000.
Proof.
  destruct (handle_project 1 no_str exits worker slots_pair world_pair)
    as [[st' w']|e] eqn:E; [|vm_compute in E; discriminate].
  exists st', w'. split; [reflexivity|].
  destruct (handle_project_other_slots 1 no_str exits worker slots_pair st'
              world_pair w' E "myworker") as [-> ->]; [discriminate|].
  split; vm_compute; reflexivity.
Defined.


Lemma scan_removes_exactly_doomed_witness :
  ~ In (Process 100 ["python"; "/srv/worker.py"] Exits)
       (table (kill_existing_process 1 "/srv/worker.py" world_running)).
Proof.
  destruct (scan_removes_exactly_doomed 1 "/srv/worker.py" world_running)
    as [_ H]; [cbn; apply NoDup_singleton|].
  intros Hin. apply H in Hin as [_ [E | [E | E]]]; vm_compute in E;
    discriminate.
Defined.

Lemma scan_empty_basename_witness :
  ~ In (Process 100 ["python"; "/srv/worker.py"] Exits)
       (table (kill_existing_process 1 (os_path_join "/srv" EmptyString)
                 world_running)).
Proof.
  intros Hin.
  apply (scan_empty_basename 1 (os_path_join "/srv" EmptyString) world_running)
    in Hin as [_ [E | [E | E]]]; try (vm_compute in E; discriminate).
  - vm_compute. reflexivity.
  - cbn. apply NoDup_singleton.
Defined.

Lemma respawn_without_wait_witness :
  exists st' w',
    handle_project 1 no_str exits worker (initial_slots [worker])
      world_stubborn = Return (st', w') /\
    clock w' = 1005.
Proof.
  destruct (respawn_without_wait 1 no_str exits worker (initial_slots [worker])
              world_stubborn None 0)
    as (st' & w' & requests & child & Hr & _ & _ & Hc & _);
    [vm_compute; reflexivity..| |].
  - vm_compute. discriminate.
  - exists st', w'. split; [exact Hr|]. rewrite Hc. vm_compute. reflexivity.
Defined.

Lemma respawn_stops_matching_project_witness :
  exists st' w',
    handle_project 1 no_str exits worker slots_pair world_pair
      = Return (st', w') /\
    alive 100 w' = false /\
    processes st' !! "myworker" = Some (Some 100).
Proof.
  destruct (respawn_stops_matching_project 1 no_str exits worker myworker
              slots_pair world_pair None 0 100)
    as (st' & w' & Hr & Hdead & Hslot).
  - vm_compute. reflexivity.
  - vm_compute. reflexivity.
  - reflexivity.
  - cbn. apply NoDup_singleton.
  - left. reflexivity.
  - discriminate.
  - discriminate.
  - discriminate.
  - vm_compute. reflexivity.
  - exists st', w'. split; [exact Hr|]. split; [exact Hdead|].
    apply Hslot; [discriminate | vm_compute; reflexivity].
Defined.

Lemma stop_all_stops_handles_witness :
  alive 100 (stop_all [worker] slots_recent world_running) = false.
Proof.
  apply (stop_all_stops_handles [worker] slots_recent world_running worker 100).
  - left. reflexivity.
  - vm_compute. reflexivity.
  - intros p [<- | []] _. reflexivity.
Defined.

End SupervisorExtras.

(** ** Facts about the raw file addresses *)

Module GithubExtras.
Import Py PyFacts PathExtras Github.

Lemma at_end_cases (s : string) :
  at_end s = true <-> s = EmptyString \/ s = String newline EmptyString.
Proof.
  unfold at_end. rewrite orb_true_iff, !String.eqb_eq. reflexivity.
Qed.

Lemma at_end_slash (t : string) : at_end (String "/" t) = false.
Proof.
  apply not_true_is_false. intros H.
  apply at_end_cases in H as [H | H]; discriminate.
Qed.

Lemma after_literal_app (lit s : string) : after_literal lit (lit ++ s) = Some s.
Proof.
  induction lit as [|a lit IH]; [now destruct s|].
  rewrite append_cons. cbn [after_literal]. now rewrite Ascii.eqb_refl.
Qed.

Lemma after_literal_inv (lit s r : string) :
  after_literal lit s = Some r -> s = lit ++ r.
Proof.
  revert s. induction lit as [|a lit IH]; intros s.
  - destruct s; intros [= <-]; reflexivity.
  - destruct s as [|b s]; [discriminate|]. cbn [after_literal].
    destruct (Ascii.eqb_spec a b) as [<-|]; [|discriminate].
    intros H. rewrite append_cons. f_equal. now apply IH.
Qed.

(** A string that ends where a segment may end: at the end or at a
    slash. *)
Lemma span_segment_run (run rest : string) :
  has_slash run = false ->
  rest = EmptyString \/ (exists t, rest = String "/" t) ->
  span_segment (run ++ rest) = (run, rest).
Proof.
  intros Hrun Hrest. induction run as [|c run IH].
  - destruct Hrest as [-> | [t ->]]; reflexivity.
  - cbn [has_slash] in Hrun. apply orb_false_iff in Hrun as [Hc Hrun].
    rewrite append_cons. cbn [span_segment]. now rewrite Hc, (IH Hrun).
Qed.

Lemma span_segment_inv (s run rest : string) :
  span_segment s = (run, rest) ->
  s = run ++ rest /\ has_slash run = false /\
  (rest = EmptyString \/ exists t, rest = String "/" t).
Proof.
  revert run rest. induction s as [|c s IH]; intros run rest.
  - intros [= <- <-]. auto.
  - cbn [span_segment]. destruct (is_slash c) eqn:Hc.
    + intros [= <- <-]. repeat split. right.
      unfold is_slash in Hc. apply Ascii.eqb_eq in Hc. subst. eauto.
    + destruct (span_segment s) as [run' rest'].
      intros [= <- <-]. destruct (IH run' rest' eq_refl) as (-> & Hr & Ht).
      repeat split; [|exact Ht]. cbn [has_slash]. now rewrite Hc, Hr.
Qed.

Lemma match_user_of (user rest : string) :
  user <> EmptyString -> has_slash user = false ->
  match_user (github_prefix ++ user ++ "/" ++ rest) = Some (user, rest).
Proof.
  intros Hne Hs. unfold match_user. rewrite after_literal_app.
  change ("/" ++ rest) with (String "/" rest).
  rewrite (span_segment_run user (String "/" rest) Hs) by eauto.
  now destruct user.
Qed.

Lemma match_user_inv (s user rest : string) :
  match_user s = Some (user, rest) ->
  user <> EmptyString /\ has_slash user = false /\
  s = github_prefix ++ user ++ "/" ++ rest.
Proof.
  unfold match_user.
  destruct (after_literal github_prefix s) as [r|] eqn:E; [|discriminate].
  apply after_literal_inv in E. subst s.
  destruct (span_segment r) as [run rest'] eqn:Hsp.
  apply span_segment_inv in Hsp as (-> & Hrun & Hrest).
  destruct run as [|c run]; [discriminate|].
  destruct rest' as [|d rest']; [discriminate|].
  intros [= <- <-]. split; [discriminate|]. split; [exact Hrun|].
  destruct Hrest as [H | [t H]]; [discriminate|]. now injection H as -> _.
Qed.

Lemma match_repo_of (user repo : string) :
  user <> EmptyString -> has_slash user = false ->
  repo <> EmptyString -> has_slash repo = false ->
  match_repo (github_prefix ++ user ++ "/" ++ repo) = Some (user, repo).
Proof.
  intros Hu Hus Hr Hrs. unfold match_repo. rewrite (match_user_of _ _ Hu Hus).
  rewrite <- (append_nil_r repo) at 1.
  rewrite (span_segment_run repo EmptyString Hrs) by auto.
  now destruct repo.
Qed.

Lemma match_repo_inv (s user repo : string) :
  match_repo s = Some (user, repo) ->
  user <> EmptyString /\ has_slash user = false /\
  repo <> EmptyString /\ has_slash repo = false /\
  s = github_prefix ++ user ++ "/" ++ repo.
Proof.
  unfold match_repo.
  destruct (match_user s) as [[u rest]|] eqn:E; [|discriminate].
  apply match_user_inv in E as (Hu & Hus & ->).
  destruct (span_segment rest) as [run rest'] eqn:Hsp.
  apply span_segment_inv in Hsp as (-> & Hrun & Hrest).
  destruct run as [|c run]; [discriminate|].
  destruct (at_end rest') eqn:Hend; [|discriminate].
  intros [= <- <-].
  destruct Hrest as [-> | [t ->]]; [|now rewrite at_end_slash in Hend].
  rewrite append_nil_r. repeat split; try assumption. discriminate.
Qed.

Lemma slash_then_end_cases (s : string) :
  slash_then_end s = true <->
  at_end s = true \/ exists t, s = String "/" t /\ at_end t = true.
Proof.
  destruct s as [|c s]; cbn [slash_then_end].
  - split; [now left | reflexivity].
  - rewrite orb_true_iff, andb_true_iff. split.
    + intros [[Hc He] | H]; [right | now left].
      unfold is_slash in Hc. apply Ascii.eqb_eq in Hc. subst. eauto.
    + intros [H | (t & [= -> ->] & He)]; [now right | now left].
Qed.

Lemma lazy_segment_of (repo t : string) :
  repo <> EmptyString -> has_slash repo = false -> at_end t = true ->
  lazy_segment (repo ++ String "/" t) = Some repo.
Proof.
  intros Hne Hs He. induction repo as [|c repo IH]; [contradiction|].
  cbn [has_slash] in Hs. apply orb_false_iff in Hs as [Hc Hs].
  rewrite append_cons. cbn [lazy_segment]. rewrite Hc.
  destruct repo as [|d repo].
  - change (EmptyString ++ String "/" t) with (String "/" t).
    rewrite (proj2 (slash_then_end_cases (String "/" t))); [reflexivity|].
    right. eauto.
  - assert (Hnot : slash_then_end (String d repo ++ String "/" t) = false).
    { apply not_true_is_false. intros H.
      apply slash_then_end_cases in H as [H | (t' & H & _)].
      - apply at_end_cases in H as [H | H]; [discriminate|].
        rewrite append_cons in H. injection H as _ H.
        now destruct repo.
      - rewrite append_cons in H. injection H as -> _.
        cbn [has_slash is_slash] in Hs. discriminate. }
    rewrite Hnot, IH by (assumption || discriminate). reflexivity.
Qed.

Lemma lazy_segment_inv (rest repo : string) :
  lazy_segment rest = Some repo ->
  repo <> EmptyString /\ has_slash repo = false /\
  exists rem, rest = repo ++ rem /\ slash_then_end rem = true.
Proof.
  revert repo. induction rest as [|c rest IH]; intros repo; [discriminate|].
  cbn [lazy_segment]. destruct (is_slash c) eqn:Hc; [discriminate|].
  destruct (slash_then_end rest) eqn:He.
  - intros [= <-]. split; [discriminate|]. split.
    + cbn [has_slash]. now rewrite Hc.
    + exists rest. split; [reflexivity | exact He].
  - destruct (lazy_segment rest) as [r|]; [|discriminate].
    intros [= <-]. destruct (IH r eq_refl) as (_ & Hs & rem & -> & Hrem).
    split; [discriminate|]. split.
    + cbn [has_slash]. now rewrite Hc, Hs.
    + exists rem. split; [reflexivity | exact Hrem].
Qed.

Lemma has_slash_newline_free (s : string) :
  has_slash s = false -> has_slash (s ++ String newline EmptyString) = false.
Proof. intros H. rewrite has_slash_app, H. reflexivity. Qed.

(** The second pattern adds the paths that end with a slash. *)
Lemma match_repo_slash_after (s user repo : string) :
  match_repo s = None ->
  match_repo_slash s = Some (user, repo) ->
  user <> EmptyString /\ has_slash user = false /\
  repo <> EmptyString /\ has_slash repo = false /\
  exists t, s = github_prefix ++ user ++ "/" ++ repo ++ String "/" t /\
            at_end t = true.
Proof.
  unfold match_repo_slash. intros Hfirst.
  destruct (match_user s) as [[u rest]|] eqn:E; [|discriminate].
  destruct (lazy_segment rest) as [r|] eqn:Hl; [|discriminate].
  intros [= <- <-].
  destruct (match_user_inv _ _ _ E) as (Hu & Hus & ->).
  apply lazy_segment_inv in Hl as (Hr & Hrs & rem & -> & Hrem).
  repeat split; try assumption.
  apply slash_then_end_cases in Hrem as [Hrem | (t & -> & Ht)]; [|eauto].
  exfalso. unfold match_repo in Hfirst. rewrite E in Hfirst.
  assert (Hsp : span_segment (r ++ rem) = (r ++ rem, EmptyString)).
  { rewrite <- (append_nil_r (r ++ rem)) at 1.
    apply span_segment_run; [|auto].
    apply at_end_cases in Hrem as [-> | ->];
      [now rewrite append_nil_r | now apply has_slash_newline_free]. }
  rewrite Hsp in Hfirst. destruct r as [|c r]; [contradiction|].
  rewrite append_cons in Hfirst. discriminate.
Qed.

Lemma match_repo_slash_of (user repo t : string) :
  user <> EmptyString -> has_slash user = false ->
  repo <> EmptyString -> has_slash repo = false -> at_end t = true ->
  match_repo (github_prefix ++ user ++ "/" ++ repo ++ String "/" t) = None /\
  match_repo_slash (github_prefix ++ user ++ "/" ++ repo ++ String "/" t)
  = Some (user, repo).
Proof.
  intros Hu Hus Hr Hrs Ht. unfold match_repo, match_repo_slash.
  rewrite (match_user_of _ _ Hu Hus).
  rewrite (span_segment_run repo (String "/" t) Hrs) by eauto.
  rewrite at_end_slash, (lazy_segment_of repo t Hr Hrs Ht).
  split; [now destruct repo | reflexivity].
Qed.

Lemma rstrip_slash_ends (a b : string) :
  b <> EmptyString -> has_slash b = false -> rstrip_slash (a ++ b) = a ++ b.
Proof.
  intros Hne Hs.
  assert (Hb : rstrip_slash b = b).
  { clear Hne. induction b as [|c b IH]; [reflexivity|].
    cbn [has_slash] in Hs. apply orb_false_iff in Hs as [Hc Hs].
    cbn [rstrip_slash]. rewrite (IH Hs), Hc. now destruct b. }
  induction a as [|c a IH]; [exact Hb|].
  rewrite append_cons. cbn [rstrip_slash]. rewrite IH.
  destruct (a ++ b) eqn:E; [|reflexivity].
  destruct a; [now subst | rewrite append_cons in E; discriminate].
Qed.

Lemma rstrip_slash_trailing (s : string) :
  rstrip_slash (s ++ "/") = rstrip_slash s.
Proof.
  induction s as [|c s IH]; [reflexivity|].
  rewrite append_cons. cbn [rstrip_slash]. now rewrite IH.
Qed.

Lemma string_length_app (a b : string) :
  String.length (a ++ b) = (String.length a + String.length b)%nat.
Proof.
  induction a as [|c a IH]; [reflexivity|].
  rewrite append_cons. cbn [String.length]. now rewrite IH.
Qed.

Lemma removesuffix_app (suffix s : string) :
  removesuffix suffix (s ++ suffix) = s.
Proof.
  induction s as [|c s IH].
  - change (EmptyString ++ suffix) with suffix.
    destruct suffix as [|d suffix]; [reflexivity|].
    cbn [removesuffix]. now rewrite String.eqb_refl.
  - rewrite append_cons. cbn [removesuffix]. rewrite IH.
    destruct (String.eqb_spec (String c (s ++ suffix)) suffix) as [E|_];
      [|reflexivity].
    apply (f_equal String.length) in E. cbn [String.length] in E.
    rewrite string_length_app in E. lia.
Qed.

Lemma removesuffix_past_slash (pre t : string) :
  removesuffix ".git" (pre ++ String "/" t)
  = pre ++ String "/" (removesuffix ".git" t).
Proof.
  assert (Hnot : forall s, has_slash s = true -> String.eqb s ".git" = false).
  { intros s Hs. destruct (String.eqb_spec s ".git") as [->|]; [|reflexivity].
    discriminate. }
  induction pre as [|c pre IH].
  - change (EmptyString ++ String "/" t) with (String "/" t).
    cbn [removesuffix]. now rewrite Hnot.
  - rewrite !append_cons. cbn [removesuffix]. rewrite IH, Hnot; [reflexivity|].
    cbn [has_slash]. rewrite has_slash_app.
    change (has_slash (String "/" t)) with true. now rewrite !orb_true_r.
Qed.

Lemma repository_path_split (user repo : string) :
  github_prefix ++ user ++ "/" ++ repo
  = (github_prefix ++ user) ++ String "/" repo.
Proof. now rewrite append_assoc. Qed.

Lemma repository_path_clean (user repo : string) :
  repo <> EmptyString -> has_slash repo = false ->
  removesuffix ".git" repo = repo ->
  rstrip_slash (github_prefix ++ user ++ "/" ++ repo)
  = github_prefix ++ user ++ "/" ++ repo /\
  removesuffix ".git" (github_prefix ++ user ++ "/" ++ repo)
  = github_prefix ++ user ++ "/" ++ repo.
Proof.
  intros Hr Hrs Hgit. split.
  - rewrite repository_path_split.
    change (String "/" repo) with ("/" ++ repo).
    rewrite <- append_assoc. now apply rstrip_slash_ends.
  - rewrite repository_path_split, removesuffix_past_slash. now rewrite Hgit.
Qed.

Lemma github_path_nonempty (s t : string) :
  String.eqb ((github_prefix ++ s) ++ t) EmptyString = false.
Proof. reflexivity. Qed.

(** From the cleaned path to the address. *)
Lemma raw_url_of_cleaned (github_path local_path : string)
    (github_file_path : option string) (user repo : string) :
  String.eqb github_path EmptyString = false ->
  removesuffix ".git" (rstrip_slash github_path)
  = github_prefix ++ user ++ "/" ++ repo ->
  user <> EmptyString -> has_slash user = false ->
  repo <> EmptyString -> has_slash repo = false ->
  get_github_raw_url github_path local_path github_file_path
  = Some (raw_prefix ++ user ++ "/" ++ repo ++ "/main/"
            ++ file_path_of local_path github_file_path).
Proof.
  intros Hne Hclean Hu Hus Hr Hrs. unfold get_github_raw_url.
  rewrite Hne. cbv zeta. rewrite Hclean. unfold patterns.
  cbn [first_match]. now rewrite (match_repo_of user repo Hu Hus Hr Hrs).
Qed.

(** [get_github_raw_url] answers with an address exactly when the path
    is not empty and, once its trailing slashes and then one [.git] are
    removed, it is the GitHub prefix followed by two non-empty segments
    without a slash, [user/repo], and then nothing, or a slash, or a
    slash and a line break; the address is that of the file on [main]
    in that repository. *)
Theorem raw_url_exactly_for_repositories (github_path local_path : string)
    (github_file_path : option string) (url : string) :
  get_github_raw_url github_path local_path github_file_path = Some url <->
  github_path <> EmptyString /\
  exists user repo tail,
    removesuffix ".git" (rstrip_slash github_path)
    = github_prefix ++ user ++ "/" ++ repo ++ tail /\
    user <> EmptyString /\ has_slash user = false /\
    repo <> EmptyString /\ has_slash repo = false /\
    (tail = EmptyString \/ exists t, tail = String "/" t /\ at_end t = true) /\
    url = raw_prefix ++ user ++ "/" ++ repo ++ "/main/"
            ++ file_path_of local_path github_file_path.
Proof.
  unfold get_github_raw_url.
  destruct (String.eqb_spec github_path EmptyString) as [->|Hne].
  { split; [discriminate|]. now intros [[] _]. }
  cbv zeta. unfold patterns. cbn [first_match].
  set (cleaned_path := removesuffix ".git" (rstrip_slash github_path)).
  split.
  - intros H. split; [exact Hne|].
    destruct (match_repo cleaned_path) as [[user repo]|] eqn:E1.
    + injection H as <-.
      apply match_repo_inv in E1 as (Hu & Hus & Hr & Hrs & E).
      exists user, repo, EmptyString. rewrite append_nil_r. auto 10.
    + destruct (match_repo_slash cleaned_path) as [[user repo]|] eqn:E2;
        [|discriminate].
      injection H as <-.
      apply (match_repo_slash_after _ _ _ E1) in E2
        as (Hu & Hus & Hr & Hrs & t & E & Ht).
      exists user, repo, (String "/" t). eauto 10.
  - intros (_ & user & repo & tail & -> & Hu & Hus & Hr & Hrs & Htail & ->).
    destruct Htail as [-> | (t & -> & Ht)].
    + rewrite append_nil_r. now rewrite (match_repo_of user repo Hu Hus Hr Hrs).
    + destruct (match_repo_slash_of user repo t Hu Hus Hr Hrs Ht) as [-> ->].
      reflexivity.
Qed.

(** The three ways of writing a repository that the function documents,
    [https://github.com/user/repo], the same with [.git] and the same
    with a final slash, give one and the same address: that of
    [github_file_path] when it is given and not empty, and of the base
    name of [local_path] otherwise, on the branch [main]. *)
Theorem documented_forms_agree (user repo local_path : string)
    (github_file_path : option string) :
  user <> EmptyString -> has_slash user = false ->
  repo <> EmptyString -> has_slash repo = false ->
  removesuffix ".git" repo = repo ->
  let github_path := github_prefix ++ user ++ "/" ++ repo in
  let url := Some (raw_prefix ++ user ++ "/" ++ repo ++ "/main/"
                     ++ file_path_of local_path github_file_path) in
  get_github_raw_url github_path local_path github_file_path = url /\
  get_github_raw_url (github_path ++ ".git") local_path github_file_path
  = url /\
  get_github_raw_url (github_path ++ "/") local_path github_file_path = url.
Proof.
  intros Hu Hus Hr Hrs Hgit github_path url.
  destruct (repository_path_clean user repo Hr Hrs Hgit) as [Hstrip Hclean].
  fold github_path in Hstrip, Hclean.
  split; [|split]; apply raw_url_of_cleaned; try assumption.
  - reflexivity.
  - now rewrite Hstrip.
  - reflexivity.
  - rewrite rstrip_slash_ends by (discriminate || reflexivity).
    apply removesuffix_app.
  - reflexivity.
  - now rewrite rstrip_slash_trailing, Hstrip.
Qed.

Lemma documented_forms_agree_witness :
  get_github_raw_url "https://github.com/conei7/AutoMonitor"
    "/srv/AutoMonitor.py" None
  = Some "https://raw.githubusercontent.com/conei7/AutoMonitor/main/AutoMonitor.py"
  /\
  get_github_raw_url "https://github.com/conei7/AutoMonitor.git"
    "/srv/AutoMonitor.py" None
  = Some "https://raw.githubusercontent.com/conei7/AutoMonitor/main/AutoMonitor.py"
  /\
  get_github_raw_url "https://github.com/conei7/AutoMonitor/"
    "/srv/AutoMonitor.py" None
  = Some "https://raw.githubusercontent.com/conei7/AutoMonitor/main/AutoMonitor.py".
Proof.
  apply (documented_forms_agree "conei7" "AutoMonitor" "/srv/AutoMonitor.py"
           None); (discriminate || reflexivity).
Defined.

End GithubExtras.

